(** * Kalman tracking of labelled objects: a model of [src/predict.py]

    The development embeds the predictor classes of [predict.py]
    ([Predictor], [KalmanObjectState], [KalmanFilterGeneric],
    [SimpleRandomInitializer], [KalmanFilterBasic]) and states the
    properties of the predict / refresh / correct cycle over that embedding.

    Conventions of the embedding.

    - Numbers.  The program computes with numpy [float64].  The model is
      parametric in a real field [real] and computes exactly in it: every
      numpy operation is read as the field operation it rounds.  Rounding,
      overflow and NaN are outside this model.  [np.linalg.inv] is
      [invmx], raising [LinAlgError] exactly on singular matrices.
      Where rounding decides a property (the symmetry of the covariance),
      the covariance updates are also given on IEEE binary64 numbers, in
      the module [Float64].
    - Arrays.  One-dimensional arrays of shape [n] are column vectors
      ['cV_n]; [np.vstack] / [np.hstack] are [col_mx] / [row_mx];
      [np.matmul] is [*m]; list concatenation [pos + v] of two 2-lists is
      [col_mx].
    - Dictionaries are association lists with pairwise distinct keys
      ([wf_dict]), here kept in insertion order; no statement below depends
      on the order in which a dictionary is walked.
    - Language level.  The module is Python 2: [Predictor.__init__] unpickles
      from a handle opened in text mode and [Predictor.Run] pickles to one,
      both of which Python 3 rejects.  In Python 2 [dict.keys()] builds a
      fresh list, and [0/0] on two [int]s raises [ZeroDivisionError].
    - Exceptions are never caught by the program, so a raising call is
      modelled by an [Err] result that carries no state.
    - Rendering ([SaveEstimateAsImage], which goes through
      [KalmanObjectState.SetImage] and the absent [utils] module) and the
      pickling of the two error series at the end of [Run] read the filter
      without changing it; they are calls to the output directory
      ([output_dir_t]) whose outcome, a return or an exception, is a
      parameter of the model. *)

From HB Require Import structures.
From mathcomp Require Import boot order algebra.
From Stdlib Require Import String PrimFloat.

Set Implicit Arguments.
Unset Strict Implicit.
Unset Printing Implicit Defensive.

Import Order.TTheory GRing.Theory Num.Theory.
Local Open Scope ring_scope.

(** ** Exceptions and results *)

Inductive exn : Type :=
  | KeyError
  | TypeError
  | IOError
  | LinAlgError
  | ZeroDivisionError
  | RuntimeError
  | SystemExit (code : nat).

Inductive result (A : Type) : Type :=
  | Ok (a : A)
  | Err (e : exn).

Arguments Ok {A} a.
Arguments Err {A} e.

Definition bind {A B : Type} (m : result A) (k : A -> result B) : result B :=
  match m with
  | Ok a => k a
  | Err e => Err e
  end.

Notation "x <- m ;; k" := (bind m (fun x => k))
  (at level 100, m at next level, right associativity, only parsing).

(** A [for] loop whose body may raise: the first exception ends the loop. *)
Fixpoint foldM {A B : Type} (f : A -> B -> result A) (a : A) (s : seq B)
  : result A :=
  match s with
  | [::] => Ok a
  | b :: s' => a' <- f a b ;; foldM f a' s'
  end.

Definition is_ok {A : Type} (m : result A) : bool :=
  if m is Ok _ then true else false.

(** ** Python dictionaries *)

Definition string_eqP : Equality.axiom String.eqb :=
  fun s t => equivP idP (String.eqb_eq s t).

HB.instance Definition _ := hasDecEq.Build string string_eqP.

Section Dict.

Variables (K : eqType) (V : Type).

Definition dict : Type := seq (K * V).

(** [d.keys()] in Python 2: a new list of the keys. *)
Definition dict_keys (d : dict) : seq K := [seq kv.1 | kv <- d].

(** [d.items()]. *)
Definition dict_items (d : dict) : seq (K * V) := d.

(** [k in d]. *)
Definition dict_mem (k : K) (d : dict) : bool := k \in dict_keys d.

(** [len(d)]. *)
Definition dict_len (d : dict) : nat := size d.

Fixpoint dict_get (k : K) (d : dict) : option V :=
  match d with
  | [::] => None
  | kv :: d' => if kv.1 == k then Some kv.2 else dict_get k d'
  end.

(** [d[k]]: raises [KeyError] on a missing key. *)
Definition dict_getitem (k : K) (d : dict) : result V :=
  if dict_get k d is Some v then Ok v else Err KeyError.

(** [d[k] = v]: overwrites in place, or appends a new entry. *)
Fixpoint dict_set (k : K) (v : V) (d : dict) : dict :=
  match d with
  | [::] => [:: (k, v)]
  | kv :: d' => if kv.1 == k then (k, v) :: d' else kv :: dict_set k v d'
  end.

Definition dict_remove (k : K) (d : dict) : dict :=
  [seq kv <- d | kv.1 != k].

(** [del d[k]]: raises [KeyError] on a missing key. *)
Definition dict_del (k : K) (d : dict) : result dict :=
  if dict_mem k d then Ok (dict_remove k d) else Err KeyError.

Definition wf_dict (d : dict) : Prop := uniq (dict_keys d).

End Dict.

(** ** The covariance updates in float64

    The program computes with numpy [float64]; this module repeats the
    covariance computations of [__init__], [SimpleRandomInitializer] and
    [Estimate] on IEEE binary64 numbers.  Arrays are lists of rows.
    [np.matmul] is read as the textbook product: each entry is a dot
    product accumulated in index order, one rounding for each product and
    each sum.  [np.linalg.inv] of a 2 x 2 array is read as LAPACK does it:
    an LU factorisation with partial pivoting, then a triangular solve for
    each column of the identity; a zero pivot raises (here [None]). *)
Module Float64.

Definition fmat : Type := seq (seq float).

Definition dot (u v : seq float) : float :=
  foldl (fun acc p => (acc + p.1 * p.2)%float) 0%float (zip u v).

(** [np.transpose]. *)
Definition transpose (A : fmat) : fmat :=
  [seq [seq nth 0%float r j | r <- A] | j <- iota 0 (size (head [::] A))].

(** [np.matmul]. *)
Definition matmul (A B : fmat) : fmat :=
  [seq [seq dot r c | c <- transpose B] | r <- A].

Definition zipmat (op : float -> float -> float) (A B : fmat) : fmat :=
  [seq [seq op p.1 p.2 | p <- zip r.1 r.2] | r <- zip A B].

(** [A + B], [A - B], [a * A], [A * a], [A / a], entry by entry. *)
Definition add (A B : fmat) : fmat := zipmat PrimFloat.add A B.
Definition sub (A B : fmat) : fmat := zipmat PrimFloat.sub A B.
Definition scale_l (a : float) (A : fmat) : fmat :=
  [seq [seq (a * x)%float | x <- r] | r <- A].
Definition scale_r (A : fmat) (a : float) : fmat :=
  [seq [seq (x * a)%float | x <- r] | r <- A].
Definition div_r (A : fmat) (a : float) : fmat :=
  [seq [seq (x / a)%float | x <- r] | r <- A].

(** [np.eye(n)], [np.zeros([n, m])], [np.hstack], [np.vstack]. *)
Definition eye (n : nat) : fmat :=
  [seq [seq (if i == j then 1 else 0)%float | j <- iota 0 n] | i <- iota 0 n].
Definition zeros (n m : nat) : fmat := nseq n (nseq m 0%float).
Definition hstack (A B : fmat) : fmat := [seq r.1 ++ r.2 | r <- zip A B].
Definition vstack (A B : fmat) : fmat := A ++ B.

(** [np.linalg.inv] on a 2 x 2 array. *)
Definition inv (S : fmat) : option fmat :=
  match S with
  | [:: [:: s00; s01]; [:: s10; s11]] =>
      let swap := (abs s00 <? abs s10)%float in
      let: (a, b, c, d) :=
        if swap then (s10, s11, s00, s01) else (s00, s01, s10, s11) in
      if (a =? 0)%float then None
      else
        let l := (c * (1 / a))%float in
        let u := (d - l * b)%float in
        if (u =? 0)%float then None
        else
          let solve (b0 b1 : float) :=
            let y1 := (b1 - b0 * l)%float in
            let x1 := (y1 / u)%float in
            let x0 := ((b0 - x1 * b) / a)%float in
            (x0, x1) in
          let c0 := if swap then solve 0%float 1%float
                    else solve 1%float 0%float in
          let c1 := if swap then solve 1%float 0%float
                    else solve 0%float 1%float in
          Some [:: [:: c0.1; c1.1]; [:: c0.2; c1.2]]
  | _ => None
  end.

Definition symmetric (A : fmat) : bool :=
  all (fun r => all (fun p => (p.1 =? p.2)%float) (zip r.1 r.2))
      (zip A (transpose A)).

Section Model.

Variables dt pos_sigma a_sigma : float.

Definition eye2 : fmat := eye 2.
Definition zeros2 : fmat := zeros 2 2.

(** [KalmanFilterGeneric.__init__]. *)
Definition F : fmat :=
  vstack (hstack eye2 (scale_r eye2 dt)) (hstack zeros2 eye2).
Definition H : fmat := hstack eye2 zeros2.
Definition G : fmat :=
  vstack (div_r (scale_r (scale_r eye2 dt) dt) 2) (scale_r eye2 dt).
Definition Q : fmat := scale_l (a_sigma * a_sigma) (matmul G (transpose G)).
Definition R : fmat := scale_l (pos_sigma * pos_sigma) eye2.

(** The covariance [SimpleRandomInitializer] gives a new object. *)
Definition initial_cov : fmat :=
  vstack (hstack (scale_l (pos_sigma * pos_sigma) eye2) zeros2)
         (hstack zeros2 (scale_l (a_sigma * a_sigma) eye2)).

(** The covariance of the first loop of [Estimate]. *)
Definition predict_cov (xcov : fmat) : fmat :=
  add (matmul (matmul F xcov) (transpose F)) Q.

(** The covariance of the second loop of [Estimate]. *)
Definition correct_cov (xcov : fmat) : option fmat :=
  let S := add (matmul (matmul H xcov) (transpose H)) R in
  if inv S is Some Sinv then
    let K := matmul (matmul xcov (transpose H)) Sinv in
    let KH := matmul K H in
    Some (matmul (sub (eye (size KH)) KH) xcov)
  else None.

End Model.

End Float64.

(** ** The tracker over a real field *)

Section Tracker.

Variable real : realFieldType.

(** [np.sqrt], which a real field need not have, is a parameter of the
    error computation. *)
Variable sqrt : real -> real.

Definition eye2 : 'M[real]_2 := 1%:M.
Definition zeros2 : 'M[real]_2 := 0.

(** The 2-list [[a, b]] as an array. *)
Definition vec2 (a b : real) : 'cV[real]_2 :=
  \col_(i < 2) (if i == 0 :> nat then a else b).

(** *** class KalmanObjectState *)

Record KalmanObjectState : Type := mkState {
  x_obs : 'cV[real]_2;            (* observed position *)
  x_est : 'cV[real]_(2 + 2);      (* estimated [pos:vel] *)
  x_pred : 'cV[real]_(2 + 2);     (* predicted [pos:vel] *)
  x_cov : 'M[real]_(2 + 2);       (* state covariance *)
  done : bool;
  x_true : option 'cV[real]_2;    (* true position, [None] until set *)
  v_true : option 'cV[real]_2     (* true velocity, [None] until set *)
}.

Definition SetTrueState (xt vt : 'cV[real]_2) (s : KalmanObjectState) :=
  mkState (x_obs s) (x_est s) (x_pred s) (x_cov s) (done s)
          (Some xt) (Some vt).

Definition GetTrueState (s : KalmanObjectState) := (x_true s, v_true s).

Definition SetObservation (xo : 'cV[real]_2) (s : KalmanObjectState) :=
  mkState xo (x_est s) (x_pred s) (x_cov s) (done s) (x_true s) (v_true s).

Definition GetObservation (s : KalmanObjectState) := x_obs s.

Definition SetPredictedState (xp : 'cV[real]_(2 + 2)) (s : KalmanObjectState) :=
  mkState (x_obs s) (x_est s) xp (x_cov s) (done s) (x_true s) (v_true s).

Definition GetPredictedState (s : KalmanObjectState) := x_pred s.

Definition SetStateCov (c : 'M[real]_(2 + 2)) (s : KalmanObjectState) :=
  mkState (x_obs s) (x_est s) (x_pred s) c (done s) (x_true s) (v_true s).

Definition GetStateCov (s : KalmanObjectState) := x_cov s.

Definition SetEstimatedState (xe : 'cV[real]_(2 + 2)) (s : KalmanObjectState) :=
  mkState (x_obs s) xe (x_pred s) (x_cov s) (done s) (x_true s) (v_true s).

Definition GetEstimatedState (s : KalmanObjectState) := x_est s.

Definition MarkDone (s : KalmanObjectState) :=
  mkState (x_obs s) (x_est s) (x_pred s) (x_cov s) true (x_true s) (v_true s).

Definition ResetDone (s : KalmanObjectState) :=
  mkState (x_obs s) (x_est s) (x_pred s) (x_cov s) false (x_true s) (v_true s).

Definition IsDone (s : KalmanObjectState) := done s.

(** *** The data directory

    [parameter_file] is the unpickled content of [data_dir/parameters]
    ([None] when the file cannot be opened); [state_file f] is what
    [data_reader.ReadStateWithID] returns for [state_%08d.txt % f]
    ([None] when the file does not exist).  A record is the triple
    (true position, true velocity, observed position), indexed 0, 1, 2. *)

Definition parameters_t : Type := dict string real.

Definition obj_record : Type :=
  ('cV[real]_2 * 'cV[real]_2 * 'cV[real]_2)%type.

Definition rec0 (r : obj_record) := r.1.1.
Definition rec1 (r : obj_record) := r.1.2.
Definition rec2 (r : obj_record) := r.2.

Definition frame_data : Type := dict nat obj_record.

Record data_dir_t : Type := mkDataDir {
  parameter_file : option parameters_t;
  state_file : nat -> option frame_data
}.

Definition tracked_t : Type := dict nat KalmanObjectState.

Definition initializer_t : Type :=
  parameters_t -> 'cV[real]_2 -> result KalmanObjectState.

(** *** classes Predictor, KalmanFilterGeneric, KalmanFilterBasic

    One record holds the attributes the three [__init__] methods set. *)

Record KalmanFilter : Type := mkFilter {
  data_dir : data_dir_t;
  parameters : parameters_t;
  pos_error : seq real;
  vel_error : seq real;
  state : tracked_t;
  F : 'M[real]_(2 + 2);
  H : 'M[real]_(2, 2 + 2);
  Q : 'M[real]_(2 + 2);
  R : 'M[real]_2;
  InitializeObject : initializer_t
}.

Definition set_state (st : tracked_t) (flt : KalmanFilter) : KalmanFilter :=
  mkFilter (data_dir flt) (parameters flt) (pos_error flt) (vel_error flt)
           st (F flt) (H flt) (Q flt) (R flt) (InitializeObject flt).

Definition append_errors (pe ve : real) (flt : KalmanFilter) : KalmanFilter :=
  mkFilter (data_dir flt) (parameters flt)
           (rcons (pos_error flt) pe) (rcons (vel_error flt) ve)
           (state flt) (F flt) (H flt) (Q flt) (R flt) (InitializeObject flt).

(** [Predictor.__init__]: open and unpickle the parameter file. *)
Definition Predictor_init (dd : data_dir_t) : result parameters_t :=
  if parameter_file dd is Some p then Ok p else Err IOError.

Definition model_F (dt : real) : 'M[real]_(2 + 2) :=
  col_mx (row_mx eye2 (dt *: eye2)) (row_mx zeros2 eye2).

Definition model_H : 'M[real]_(2, 2 + 2) := row_mx eye2 zeros2.

Definition model_G (dt : real) : 'M[real]_(2 + 2, 2) :=
  col_mx (2%:R^-1 *: (dt *: (dt *: eye2))) (dt *: eye2).

Definition model_Q (dt a_sigma : real) : 'M[real]_(2 + 2) :=
  (a_sigma * a_sigma) *: (model_G dt *m (model_G dt)^T).

Definition model_R (pos_sigma : real) : 'M[real]_2 :=
  (pos_sigma * pos_sigma) *: eye2.

(** [KalmanFilterGeneric.__init__] followed by [KalmanFilterBasic.__init__]. *)
Definition KalmanFilterBasic_init (dd : data_dir_t) (init : initializer_t)
  : result KalmanFilter :=
  params <- Predictor_init dd ;;
  dt <- dict_getitem "dt"%string params ;;
  pos_sigma <- dict_getitem "pos_sigma"%string params ;;
  a_sigma <- dict_getitem "a_sigma"%string params ;;
  Ok (mkFilter dd params [::] [::] [::]
               (model_F dt) model_H (model_Q dt a_sigma) (model_R pos_sigma)
               init).

(** *** SimpleRandomInitializer *)

(** [np.argmin]: index of the first occurrence of the minimum. *)
Fixpoint argmin_from (best_i : nat) (best : real) (i : nat) (s : seq real)
  : nat :=
  match s with
  | [::] => best_i
  | x :: s' =>
      if x < best then argmin_from i x i.+1 s'
      else argmin_from best_i best i.+1 s'
  end.

Definition argmin (s : seq real) : nat :=
  if s is x :: s' then argmin_from 0 x 1 s' else 0.

Definition SimpleRandomInitializer : initializer_t := fun params pos =>
  pos_sigma <- dict_getitem "pos_sigma"%string params ;;
  a_sigma <- dict_getitem "a_sigma"%string params ;;
  let cov : 'M[real]_(2 + 2) :=
    col_mx (row_mx ((pos_sigma * pos_sigma) *: eye2) zeros2)
           (row_mx zeros2 ((a_sigma * a_sigma) *: eye2)) in
  v_mean <- dict_getitem "v_mean"%string params ;;
  dt <- dict_getitem "dt"%string params ;;
  let delta := v_mean * dt in
  let mean := [:: pos 0 0 - delta; pos 1 0 - delta;
                  pos 0 0 - (1 - delta); pos 1 0 - (1 - delta)] in
  let side := argmin [seq `|m| | m <- mean] in
  let v :=
    if side == 0%N then vec2 v_mean 0
    else if side == 1%N then vec2 0 v_mean
    else if side == 2%N then vec2 (- v_mean) 0
    else vec2 0 (- v_mean) in
  let po := pos in
  let xe := col_mx pos v in
  Ok (mkState po xe xe cov true None None).

(** *** KalmanFilterGeneric.Estimate and KalmanFilterBasic.UpdateTrackedObjects *)

(** Body of the first loop of [Estimate]. *)
Definition predict_object (flt : KalmanFilter) (s : KalmanObjectState)
  : KalmanObjectState :=
  let xp := F flt *m GetEstimatedState s in
  let xcov := F flt *m GetStateCov s *m (F flt)^T + Q flt in
  ResetDone (SetStateCov xcov (SetPredictedState xp s)).

Definition predict_phase (flt : KalmanFilter) (st : tracked_t) : tracked_t :=
  [seq (kv.1, predict_object flt kv.2) | kv <- dict_items st].

Arguments predict_phase : simpl never.

(** Body of the second loop of [Estimate]. *)
Definition correct_object (flt : KalmanFilter) (s : KalmanObjectState)
  : result KalmanObjectState :=
  if IsDone s then Ok s
  else
    let xp := GetPredictedState s in
    let xcov := GetStateCov s in
    let y := GetObservation s - H flt *m xp in
    let S := H flt *m xcov *m (H flt)^T + R flt in
    if S \in unitmx then
      let Sinv := invmx S in
      let K := xcov *m (H flt)^T *m Sinv in
      let xe := xp + K *m y in
      let KH := K *m H flt in
      let xcov' := (1%:M - KH) *m GetStateCov s in
      Ok (MarkDone (SetStateCov xcov' (SetEstimatedState xe s)))
    else Err LinAlgError.

Fixpoint correct_phase (flt : KalmanFilter) (st : tracked_t)
  : result tracked_t :=
  match st with
  | [::] => Ok [::]
  | kv :: st' =>
      s' <- correct_object flt kv.2 ;;
      rest <- correct_phase flt st' ;;
      Ok ((kv.1, s') :: rest)
  end.

(** First loop of [UpdateTrackedObjects]: walk the key list taken before
    the loop and delete the identities that were not observed. *)
Definition stop_tracking (input_data : frame_data) (st : tracked_t)
  : result tracked_t :=
  let tracking := dict_keys st in
  foldM (fun st oid =>
           if ~~ dict_mem oid input_data then dict_del oid st else Ok st)
        st tracking.

(** Body of the second loop of [UpdateTrackedObjects]. *)
Definition observe_object (flt : KalmanFilter) (st : tracked_t)
    (item : nat * obj_record) : result tracked_t :=
  let oid := item.1 in
  let obj_state := item.2 in
  st1 <- (if dict_mem oid st then
            object_state <- dict_getitem oid st ;;
            Ok (dict_set oid (SetObservation (rec2 obj_state) object_state) st)
          else
            object_state <- InitializeObject flt (parameters flt)
                                             (rec2 obj_state) ;;
            Ok (dict_set oid (MarkDone object_state) st)) ;;
  s <- dict_getitem oid st1 ;;
  Ok (dict_set oid (SetTrueState (rec0 obj_state) (rec1 obj_state) s) st1).

Definition UpdateTrackedObjects (flt : KalmanFilter) (frame : nat)
    (st : tracked_t) : result tracked_t :=
  if state_file (data_dir flt) frame is Some input_data then
    st1 <- stop_tracking input_data st ;;
    foldM (observe_object flt) st1 (dict_items input_data)
  else Err (SystemExit 1).

Definition Estimate (flt : KalmanFilter) (frame : nat) : result KalmanFilter :=
  let st1 := predict_phase flt (state flt) in
  st2 <- UpdateTrackedObjects flt frame st1 ;;
  st3 <- correct_phase flt st2 ;;
  Ok (set_state st3 flt).

(** *** KalmanFilterBasic.ComputeError and Predictor.Run *)

(** [np.sqrt(np.sum(np.power(a - b, 2)))]. *)
Definition euclid_dist (a b : 'cV[real]_2) : real :=
  sqrt (\sum_(i < 2) ((a - b) i 0) ^+ 2).

(** One pass of the loop of [ComputeError]; subtracting [None] from an
    array raises [TypeError]. *)
Definition add_error (acc : real * real) (kv : nat * KalmanObjectState)
  : result (real * real) :=
  let est := GetEstimatedState kv.2 in
  let xe := usubmx est in
  let ve := dsubmx est in
  match GetTrueState kv.2 with
  | (Some xt, Some vt) => Ok (acc.1 + euclid_dist xe xt, acc.2 + euclid_dist ve vt)
  | _ => Err TypeError
  end.

(** The loop leaves the two [int] zeros untouched exactly when the tracked
    set is empty, and then the quotient is [0/0] on [int]s. *)
Definition ComputeError (flt : KalmanFilter) : result KalmanFilter :=
  acc <- foldM add_error (0, 0) (dict_items (state flt)) ;;
  let num_objects := dict_len (state flt) in
  if num_objects == 0%N then Err ZeroDivisionError
  else Ok (append_errors (acc.1 / num_objects%:R) (acc.2 / num_objects%:R) flt).

(** *** The output directory

    [save_estimate f st] is the outcome of [SaveEstimateAsImage(f)] on
    the tracked set [st]: it reads the frame's image with
    [utils.ReadImage], marks every estimate with [SetImage] and writes the
    result with [utils.SaveImage]; any of the three may raise.
    [dump_series name s] is the outcome of opening [output_dir/name] for
    writing and pickling the series [s] into it.  Neither changes the
    filter.  The directory is fixed for the life of the predictor. *)
Record output_dir_t : Type := mkOutputDir {
  save_estimate : nat -> tracked_t -> result unit;
  dump_series : string -> seq real -> result unit
}.

Variable output_dir : output_dir_t.

(** The frame loop of [Run], for the frames [f, f+1, ..., f+n-1].
    [f % log_freq] raises on a zero [log_freq]; printing does not touch
    the filter and cannot fail. *)
Fixpoint run_frames (flt : KalmanFilter) (log_freq f n : nat)
  : result KalmanFilter :=
  match n with
  | 0%N => Ok flt
  | n'.+1 =>
      if log_freq == 0%N then Err ZeroDivisionError
      else
        flt1 <- Estimate flt f ;;
        flt2 <- ComputeError flt1 ;;
        _ <- (if (f %% log_freq)%N == 0%N
              then save_estimate output_dir f (state flt2) else Ok tt) ;;
        run_frames flt2 log_freq f.+1 n'
  end.

(** [Run]: the frame loop, then the two series are pickled. *)
Definition Run (flt : KalmanFilter) (frames log_freq : nat)
  : result KalmanFilter :=
  flt' <- run_frames flt log_freq 0 frames ;;
  _ <- dump_series output_dir "position_error"%string (pos_error flt') ;;
  _ <- dump_series output_dir "velocity_error"%string (vel_error flt') ;;
  Ok flt'.

(** ** Specification-side notions *)

(** The quantities the correction is described with. *)
Definition innovation (flt : KalmanFilter) (o : KalmanObjectState) : 'cV[real]_2 :=
  x_obs o - H flt *m x_pred o.

Definition innovation_cov (flt : KalmanFilter) (o : KalmanObjectState)
  : 'M[real]_2 :=
  H flt *m x_cov o *m (H flt)^T + R flt.

Definition gain (flt : KalmanFilter) (o : KalmanObjectState)
  : 'M[real]_(2 + 2, 2) :=
  x_cov o *m (H flt)^T *m invmx (innovation_cov flt o).

(** The object a successful correction leaves behind. *)
Definition corrected (flt : KalmanFilter) (o : KalmanObjectState)
  : KalmanObjectState :=
  mkState (x_obs o)
          (x_pred o + gain flt o *m innovation flt o)
          (x_pred o)
          ((1%:M - gain flt o *m H flt) *m x_cov o)
          true (x_true o) (v_true o).

(** The object the prediction leaves behind. *)
Definition predicted (flt : KalmanFilter) (o : KalmanObjectState)
  : KalmanObjectState :=
  mkState (x_obs o) (x_est o)
          (F flt *m x_est o)
          (F flt *m x_cov o *m (F flt)^T + Q flt)
          false (x_true o) (v_true o).

(** The removal of unobserved identities as the specification words it:
    first the list of identities to remove, then the deletions. *)
Definition stop_tracking_two_phase (input_data : frame_data) (st : tracked_t)
  : result tracked_t :=
  let removals := [seq oid <- dict_keys st | ~~ dict_mem oid input_data] in
  foldM (fun st oid => dict_del oid st) st removals.

(** The parameters of the initialization fixture. *)
Definition fixture_params : parameters_t :=
  [:: ("dt"%string, 1); ("pos_sigma"%string, 1);
      ("a_sigma"%string, 10%:R^-1); ("v_mean"%string, 1)].

(** What [np.argmin] promises: [r] is an index of [s], the value there is
    a minimum of [s], and no earlier position holds that value. *)
Definition first_min (s : seq real) (r : nat) : Prop :=
  [/\ (r < size s)%N, forall y, y \in s -> nth 0 s r <= y
    & seq.index (nth 0 s r) s = r].

(** Symmetric and positive semi-definite matrices; the covariance
    invariant is their conjunction. *)
Definition symmetric n (A : 'M[real]_n) : Prop := A^T = A.

Definition psd n (A : 'M[real]_n) : Prop :=
  forall x : 'rV[real]_n, 0 <= (x *m A *m x^T) 0 0.

Definition cov_ok n (A : 'M[real]_n) : Prop := symmetric A /\ psd A.

(** What the second loop of [UpdateTrackedObjects] does to the entry of
    one identity: an entry that exists gets the new observation, a missing
    one is made by the initializer and marked; both get the true state. *)
Definition observe_entry (flt : KalmanFilter) (r : obj_record)
    (cur : option KalmanObjectState) : result KalmanObjectState :=
  match cur with
  | Some o => Ok (SetTrueState (rec0 r) (rec1 r) (SetObservation (rec2 r) o))
  | None =>
      init <- InitializeObject flt (parameters flt) (rec2 r) ;;
      Ok (SetTrueState (rec0 r) (rec1 r) (MarkDone init))
  end.

(** Every tracked object has a symmetric positive semi-definite
    covariance. *)
Definition cov_invariant (st : tracked_t) : Prop :=
  forall oid o, dict_get oid st = Some o -> cov_ok (x_cov o).

(** The removal loop read with a live key view in place of the key list:
    the iterator compares the size of the dictionary with the size it had
    when the loop started, each time it is asked for the next key, and
    raises when they differ.  This is what the same lines would do under
    Python 3; it is not the behaviour of this program. *)
Fixpoint live_loop (n0 : nat) (input_data : frame_data) (ks : seq nat)
    (st : tracked_t) : result tracked_t :=
  if dict_len st != n0 then Err RuntimeError
  else
    match ks with
    | [::] => Ok st
    | oid :: ks' =>
        st' <- (if ~~ dict_mem oid input_data then dict_del oid st
                else Ok st) ;;
        live_loop n0 input_data ks' st'
    end.

Definition stop_tracking_live (input_data : frame_data) (st : tracked_t)
  : result tracked_t :=
  live_loop (dict_len st) input_data (dict_keys st) st.

(** *** A small scenario

    Parameters of the initialization fixture; frame 0 holds one record,
    for identity 7 observed at the origin; frame 1 holds none; there is no
    later frame.  [cx_params] is the same configuration without
    [v_mean]. *)

Definition ex_record : obj_record := (vec2 0 0, vec2 (-1) 0, vec2 0 0).

Definition ex_frames (f : nat) : option frame_data :=
  if f == 0%N then Some [:: (7%N, ex_record)]
  else if f == 1%N then Some [::]
  else None.

Definition ex_dir : data_dir_t := mkDataDir (Some fixture_params) ex_frames.

(** The filter the constructor builds on [ex_dir]. *)
Definition ex_filter0 : KalmanFilter :=
  mkFilter ex_dir fixture_params [::] [::] [::]
           (model_F 1) model_H (model_Q 1 10%:R^-1) (model_R 1)
           SimpleRandomInitializer.

(** The object the initializer makes at the origin. *)
Definition ex_init : KalmanObjectState :=
  mkState (vec2 0 0)
          (col_mx (vec2 0 0) (vec2 (-1) 0))
          (col_mx (vec2 0 0) (vec2 (-1) 0))
          (block_mx ((1 * 1) *: eye2) 0 0 ((10%:R^-1 * 10%:R^-1) *: eye2))
          true None None.

(** Identity 7 as frame 0 leaves it, and the filter after frame 0. *)
Definition ex_object : KalmanObjectState :=
  SetTrueState (vec2 0 0) (vec2 (-1) 0) (MarkDone ex_init).

Definition ex_filter1 : KalmanFilter := set_state [:: (7%N, ex_object)] ex_filter0.

(** Identity 7 after a prediction, and the same with an observation that
    agrees with the prediction. *)
Definition ex_unresolved : KalmanObjectState := predict_object ex_filter1 ex_object.

Definition ex_aligned : KalmanObjectState :=
  SetObservation (H ex_filter1 *m x_pred ex_unresolved) ex_unresolved.

Definition cx_params : parameters_t :=
  [:: ("dt"%string, 1); ("pos_sigma"%string, 1); ("a_sigma"%string, 10%:R^-1)].

Definition cx_dir : data_dir_t := mkDataDir (Some cx_params) ex_frames.

Definition cx_filter : KalmanFilter :=
  mkFilter cx_dir cx_params [::] [::] [::]
           (model_F 1) model_H (model_Q 1 10%:R^-1) (model_R 1)
           SimpleRandomInitializer.

(** *** Notions for the frame cycle and the run *)

(** The true position and velocity have both been set. *)
Definition has_truth (o : KalmanObjectState) : bool :=
  isSome (x_true o) && isSome (v_true o).

(** The two terms one tracked object adds in [ComputeError]. *)
Definition pos_err_of (o : KalmanObjectState) : real :=
  if x_true o is Some xt then euclid_dist (usubmx (x_est o)) xt else 0.

Definition vel_err_of (o : KalmanObjectState) : real :=
  if v_true o is Some vt then euclid_dist (dsubmx (x_est o)) vt else 0.

(** A data directory in which every frame holds the record of identity 7,
    and a filter on it that already tracks identity 7. *)
Definition ex_frames_steady (f : nat) : option frame_data :=
  Some [:: (7%N, ex_record)].

Definition ex_tracking : KalmanFilter :=
  mkFilter (mkDataDir (Some fixture_params) ex_frames_steady)
           fixture_params [::] [::] [:: (7%N, ex_object)]
           (model_F 1) model_H (model_Q 1 10%:R^-1) (model_R 1)
           SimpleRandomInitializer.

(** Identity 7 after one more frame of [ex_tracking]. *)
Definition ex_continued : KalmanObjectState :=
  corrected ex_tracking
    (SetTrueState (rec0 ex_record) (rec1 ex_record)
       (SetObservation (rec2 ex_record) (predicted ex_tracking ex_object))).

(** [ex_filter0] after a run of one frame. *)
Definition ex_filter2 : KalmanFilter :=
  append_errors ((0 + pos_err_of ex_object) / 1%:R)
                ((0 + vel_err_of ex_object) / 1%:R) ex_filter1.

(** What a run keeps true of a filter built on [dd] with the parameters
    [params]: the noise matrices of the constructor, a non-zero
    [pos_sigma], [SimpleRandomInitializer] with its four keys, distinct
    tracked identities and symmetric positive semi-definite
    covariances. *)
Definition run_invariant (dd : data_dir_t) (params : parameters_t)
    (flt : KalmanFilter) : Prop :=
  [/\ data_dir flt = dd, parameters flt = params,
      InitializeObject flt = SimpleRandomInitializer,
      exists dt a, Q flt = model_Q dt a
    & [/\ exists2 ps, R flt = model_R ps & ps != 0,
          is_ok (SimpleRandomInitializer params (vec2 0 0)),
          wf_dict (state flt) & cov_invariant (state flt)]].

(** An output directory in which every rendering and every dump
    returns. *)
Definition ex_output : output_dir_t :=
  mkOutputDir (fun _ _ => Ok tt) (fun _ _ => Ok tt).

(** A data directory with the state file of frame 0 only, and the filter
    the constructor builds on it. *)
Definition ex_frames_short (f : nat) : option frame_data :=
  if f == 0%N then Some [:: (7%N, ex_record)] else None.

Definition ex_dir_short : data_dir_t :=
  mkDataDir (Some fixture_params) ex_frames_short.

Definition ex_filter_short : KalmanFilter :=
  mkFilter ex_dir_short fixture_params [::] [::] [::]
           (model_F 1) model_H (model_Q 1 10%:R^-1) (model_R 1)
           SimpleRandomInitializer.

(** ** Dictionary lemmas *)

Section DictTheory.

Variables (K : eqType) (V W : Type).

Lemma dict_keys_map (f : K -> V -> W) (d : dict K V) :
  dict_keys [seq (kv.1, f kv.1 kv.2) | kv <- d] = dict_keys d.
Proof. by rewrite /dict_keys -map_comp; apply: eq_map => kv. Qed.

Lemma dict_get_map (f : V -> W) (d : dict K V) k :
  dict_get k [seq (kv.1, f kv.2) | kv <- d] = omap f (dict_get k d).
Proof. by elim: d => [|kv d IH] //=; case: ifP. Qed.

Lemma dict_get_mem (d : dict K V) k :
  dict_mem k d = isSome (dict_get k d).
Proof.
rewrite /dict_mem /dict_keys; elim: d => [|kv d IH] //=.
by rewrite in_cons eq_sym; case: ifP.
Qed.

Lemma dict_get_remove (d : dict K V) k k' :
  dict_get k' (dict_remove k d) = if k' == k then None else dict_get k' d.
Proof.
elim: d => [|kv d IH] /=; first by rewrite if_same.
case: (eqVneq kv.1 k) => [->|nk] /=.
  by rewrite IH [k == k']eq_sym; case: ifP.
rewrite IH; case: (eqVneq kv.1 k') => [e|//].
by rewrite -e (negbTE nk).
Qed.

Lemma dict_keys_remove (d : dict K V) k :
  dict_keys (dict_remove k d) = [seq x <- dict_keys d | x != k].
Proof. by rewrite /dict_keys /dict_remove filter_map. Qed.

Lemma dict_get_set (d : dict K V) k v k' :
  dict_get k' (dict_set k v d) = if k' == k then Some v else dict_get k' d.
Proof.
elim: d => [|kv d IH] /=; first by rewrite eq_sym.
case: (eqVneq kv.1 k) => [->|nk] /=; first by rewrite eq_sym; case: ifP.
rewrite IH; case: (eqVneq kv.1 k') => [e|//].
by rewrite -e (negbTE nk).
Qed.

Lemma filter_own_keys (p : pred K) (d : dict K V) (ks : seq K) :
  {subset dict_keys d <= ks} ->
  [seq kv <- d | (kv.1 \notin ks) || p kv.1] = [seq kv <- d | p kv.1].
Proof.
elim: d => [|kv d IH] //= sub.
rewrite sub ?mem_head //= IH // => x xd.
by apply: sub; rewrite in_cons xd orbT.
Qed.

Lemma dict_keys_filter (p : pred K) (d : dict K V) :
  dict_keys [seq kv <- d | p kv.1] = [seq k <- dict_keys d | p k].
Proof. by rewrite /dict_keys filter_map. Qed.

Lemma filter_wf (p : pred K) (d : dict K V) :
  wf_dict d -> wf_dict [seq kv <- d | p kv.1].
Proof. by rewrite /wf_dict dict_keys_filter; apply: filter_uniq. Qed.

Lemma dict_remove_wf (d : dict K V) k : wf_dict d -> wf_dict (dict_remove k d).
Proof. exact: (filter_wf (fun x => x != k)). Qed.

Lemma dict_remove_size (d : dict K V) k :
  dict_mem k d -> (size (dict_remove k d) < size d)%N.
Proof.
rewrite /dict_mem /dict_remove; elim: d => [|kv d IH] //=.
rewrite in_cons; case: (eqVneq kv.1 k) => [e|ne] /=.
  by rewrite ltnS size_filter count_size.
by rewrite ltnS; apply: IH.
Qed.

Lemma dict_set_set (d : dict K V) k v v' :
  dict_set k v' (dict_set k v d) = dict_set k v' d.
Proof.
elim: d => [|kv d IH] /=; first by rewrite eqxx.
by case: ifP => e /=; rewrite ?eqxx // e IH.
Qed.

Lemma dict_mem_set (d : dict K V) k v k' :
  dict_mem k' (dict_set k v d) = (k' == k) || dict_mem k' d.
Proof. by rewrite !dict_get_mem dict_get_set; case: ifP. Qed.

Lemma dict_mem_remove (d : dict K V) k k' :
  dict_mem k' (dict_remove k d) = (k' != k) && dict_mem k' d.
Proof. by rewrite !dict_get_mem dict_get_remove; case: ifP. Qed.

End DictTheory.

(** ** Symmetric positive semi-definite matrices *)

Lemma trmx11 (A : 'M[real]_1) : A^T = A.
Proof. by apply/matrixP => i j; rewrite mxE !ord1. Qed.

Lemma gram_ge0 n (y : 'rV[real]_n) : 0 <= (y *m y^T) 0 0.
Proof.
rewrite mxE; apply: sumr_ge0 => j _.
by rewrite mxE -expr2 sqr_ge0.
Qed.

Lemma gram_eq0 n (y : 'rV[real]_n) : (y *m y^T) 0 0 = 0 -> y = 0.
Proof.
rewrite mxE => /psumr_eq0P Hy.
apply/rowP => j; rewrite [RHS]mxE.
have /Hy : forall i : 'I_n, true -> 0 <= y 0 i * y^T i 0.
  by move=> i _; rewrite mxE -expr2 sqr_ge0.
by move/(_ j isT)/eqP; rewrite mxE mulf_eq0 orbb => /eqP.
Qed.

Lemma psd_gram n m (B : 'M[real]_(n, m)) : psd (B *m B^T).
Proof. by move=> x; rewrite mulmxA -mulmxA -trmx_mul gram_ge0. Qed.

Lemma psd_scale n (a : real) (A : 'M[real]_n) :
  0 <= a -> psd A -> psd (a *: A).
Proof.
by move=> a0 HA x; rewrite -scalemxAr -scalemxAl mxE mulr_ge0.
Qed.

Lemma psd_add n (A B : 'M[real]_n) : psd A -> psd B -> psd (A + B).
Proof. by move=> HA HB x; rewrite mulmxDr mulmxDl mxE addr_ge0. Qed.

Lemma psd_congr n m (B : 'M[real]_(m, n)) (A : 'M[real]_n) :
  psd A -> psd (B *m A *m B^T).
Proof.
by move=> HA x; rewrite !mulmxA -[_ *m B^T *m _]mulmxA -trmx_mul.
Qed.

Lemma psd_block_diag n m (A : 'M[real]_n) (B : 'M[real]_m) :
  psd A -> psd B -> psd (block_mx A 0 0 B).
Proof.
move=> HA HB x; rewrite -[x]hsubmxK mul_row_block !mulmx0 addr0 add0r.
by rewrite tr_row_mx mul_row_col mxE addr_ge0.
Qed.

Lemma sym_congr n m (B : 'M[real]_(m, n)) (A : 'M[real]_n) :
  symmetric A -> symmetric (B *m A *m B^T).
Proof. by move=> HA; rewrite /symmetric !trmx_mul trmxK HA mulmxA. Qed.

Lemma sym_gram n m (B : 'M[real]_(n, m)) : symmetric (B *m B^T).
Proof. by rewrite /symmetric trmx_mul trmxK. Qed.

Lemma sym_scale n (a : real) (A : 'M[real]_n) :
  symmetric A -> symmetric (a *: A).
Proof. by rewrite /symmetric linearZ /= => ->. Qed.

Lemma sym_add n (A B : 'M[real]_n) :
  symmetric A -> symmetric B -> symmetric (A + B).
Proof. by rewrite /symmetric linearD /= => -> ->. Qed.

Lemma sym_inv n (A : 'M[real]_n) : symmetric A -> symmetric (invmx A).
Proof. by rewrite /symmetric trmx_inv => ->. Qed.

Lemma sym_block_diag n m (A : 'M[real]_n) (B : 'M[real]_m) :
  symmetric A -> symmetric B -> symmetric (block_mx A 0 0 B).
Proof. by rewrite /symmetric tr_block_mx !trmx0 => -> ->. Qed.

Lemma cov_ok_scalar n (a : real) : cov_ok ((a * a) *: (1%:M : 'M[real]_n)).
Proof.
split; first by apply: sym_scale; rewrite /symmetric trmx1.
apply: psd_scale; first by rewrite -expr2 sqr_ge0.
by have := @psd_gram n n 1%:M; rewrite trmx1 mulmx1.
Qed.

(** The algebra of one correction, for a symmetric covariance [P], an
    observation matrix [Hm] and a symmetric noise [Rm]. *)
Section Correction.

Variables (n m : nat) (P : 'M[real]_n) (Hm : 'M[real]_(m, n)).
Variable Rm : 'M[real]_m.

Let S := Hm *m P *m Hm^T + Rm.
Let K := P *m Hm^T *m invmx S.

Hypothesis symP : symmetric P.
Hypothesis symR : symmetric Rm.

Lemma innovation_cov_sym : symmetric S.
Proof. by apply: sym_add => //; apply: sym_congr. Qed.

Lemma corrected_cov_sym : symmetric ((1%:M - K *m Hm) *m P).
Proof.
rewrite /symmetric mulmxBl mul1mx linearB /= symP; congr (_ - _).
rewrite /K !trmx_mul trmxK symP (sym_inv innovation_cov_sym).
by rewrite !mulmxA.
Qed.

Hypothesis psdP : psd P.
Hypothesis psdR : psd Rm.

(** With [u = x K] and [z = x - u Hm], the quadratic form of the corrected
    covariance at [x] is [z P z^T + u Rm u^T]. *)
Lemma corrected_cov_psd : S \in unitmx -> psd ((1%:M - K *m Hm) *m P).
Proof.
move=> unitS x; set u := x *m K.
have uS : u *m S = x *m P *m Hm^T by rewrite /u /K !mulmxA mulmxKV.
set z := x - u *m Hm.
have E1 : x *m P *m Hm^T *m u^T = u *m S *m u^T by rewrite uS.
have E2 : u *m Hm *m P *m x^T = u *m S *m u^T.
  rewrite -[LHS]trmx11 -E1 !trmx_mul !trmxK symP.
  by rewrite !mulmxA.
have E3 : u *m Hm *m P *m Hm^T *m u^T = u *m S *m u^T - u *m Rm *m u^T.
  by rewrite /S mulmxDr mulmxDl !mulmxA addrK.
have Ez : z *m P *m z^T = x *m P *m x^T - u *m S *m u^T - u *m Rm *m u^T.
  rewrite /z linearB /= mulmxBl !mulmxBr !mulmxBl trmx_mul !mulmxA E1 E2 E3.
  by rewrite opprB !addrA subrK addrAC.
have -> : x *m ((1%:M - K *m Hm) *m P) *m x^T
          = z *m P *m z^T + u *m Rm *m u^T.
  rewrite Ez subrK mulmxBl mul1mx mulmxBr mulmxBl; congr (_ - _).
  by rewrite -E2 /u !mulmxA.
by rewrite mxE addr_ge0.
Qed.

(** A positive noise level makes the innovation covariance invertible. *)
Lemma innovation_cov_unit (r : real) :
  Rm = (r * r) *: 1%:M -> r != 0 -> S \in unitmx.
Proof.
move=> ER r0; rewrite -row_free_unit -kermx_eq0.
apply/eqP/row_matrixP => i; rewrite row0.
set x := row i (kermx S).
have xS : x *m S = 0 by rewrite /x -row_mul mulmx_ker row0.
have : (x *m S *m x^T) 0 0 = 0 by rewrite xS mul0mx mxE.
rewrite /S mulmxDr mulmxDl [in X in X -> _]mxE ER.
rewrite -scalemxAr mulmx1 -scalemxAl [X in _ + X = 0 -> _]mxE.
have h1 : 0 <= (x *m (Hm *m P *m Hm^T) *m x^T) 0 0.
  exact: (psd_congr Hm psdP).
have h2 : 0 <= r * r * (x *m x^T) 0 0.
  by rewrite mulr_ge0 ?gram_ge0 // -expr2 sqr_ge0.
move=> /eqP; rewrite paddr_eq0 // => /andP [_].
rewrite mulf_eq0 mulf_eq0 orbb (negbTE r0) /= => /eqP.
exact: gram_eq0.
Qed.

End Correction.

(** ** The two phases of [Estimate], object by object *)

Lemma predict_objectE flt o : predict_object flt o = predicted flt o.
Proof. by []. Qed.

Lemma correct_objectE flt o :
  correct_object flt o =
  if done o then Ok o
  else if innovation_cov flt o \in unitmx then Ok (corrected flt o)
  else Err LinAlgError.
Proof. by rewrite /correct_object /IsDone; case: (done o). Qed.

Lemma correct_phase_keys flt st st' :
  correct_phase flt st = Ok st' -> dict_keys st' = dict_keys st.
Proof.
elim: st st' => [|kv st IH] st' /=; first by case=> <-.
case: (correct_object flt kv.2) => //= s'.
case E: (correct_phase flt st) => [rest|] //= [<-] /=.
by rewrite (IH _ E).
Qed.

Lemma correct_phase_get flt st st' oid o :
  correct_phase flt st = Ok st' -> dict_get oid st = Some o ->
  exists2 o', dict_get oid st' = Some o' & correct_object flt o = Ok o'.
Proof.
elim: st st' => [|kv st IH] st' //=.
case Eo: (correct_object flt kv.2) => [s'|] //=.
case E: (correct_phase flt st) => [rest|] //= [<-] /=.
case: ifP => _; last exact: IH.
by case=> <-; exists s'.
Qed.

Lemma correct_phase_ok flt st :
  is_ok (correct_phase flt st) =
  all (fun kv => done kv.2 || (innovation_cov flt kv.2 \in unitmx)) st.
Proof.
elim: st => [|kv st IH] //=.
rewrite correct_objectE -IH.
case: (done kv.2) => /=; first by case: (correct_phase flt st).
by case: ifP => //= _; case: (correct_phase flt st).
Qed.

(** ** The predict phase *)

(** C2.  The first loop of [Estimate] keeps the tracked identities and
    replaces every tracked object [o] by [predicted flt o]: its predicted
    state becomes [F * x_est], its covariance [F * x_cov * F^T + Q], its
    flag is reset, and the observation, the estimate and the true state are
    the ones it had.  The phase is a total function, and a whole [Estimate]
    call returns a filter with the same [F], [H], [Q] and [R], which are
    the matrices [__init__] built from the parameters. *)
Theorem predict_phase_spec flt st :
  [/\ dict_keys (predict_phase flt st) = dict_keys st,
      forall oid,
        dict_get oid (predict_phase flt st)
        = omap (fun o => mkState (x_obs o) (x_est o)
                           (F flt *m x_est o)
                           (F flt *m x_cov o *m (F flt)^T + Q flt)
                           false (x_true o) (v_true o))
               (dict_get oid st),
      forall frame flt', Estimate flt frame = Ok flt' ->
        [/\ F flt' = F flt, H flt' = H flt, Q flt' = Q flt & R flt' = R flt]
    & forall dd init flt0, KalmanFilterBasic_init dd init = Ok flt0 ->
        exists dt a_sigma,
          [/\ dict_get "dt"%string (parameters flt0) = Some dt,
              dict_get "a_sigma"%string (parameters flt0) = Some a_sigma,
              F flt0 = model_F dt & Q flt0 = model_Q dt a_sigma]].
Proof.
split.
- exact: (dict_keys_map (fun _ => predict_object flt)).
- by move=> oid; rewrite /predict_phase dict_get_map.
- move=> frame flt'; rewrite /Estimate.
  case: (UpdateTrackedObjects _ _ _) => //= st2.
  by case: (correct_phase flt st2) => //= st3 [<-].
- move=> dd init flt0; rewrite /KalmanFilterBasic_init /Predictor_init.
  case: (parameter_file dd) => //= params; rewrite /dict_getitem.
  case Edt: (dict_get "dt"%string params) => [dt|] //=.
  case: (dict_get "pos_sigma"%string params) => [ps|] //=.
  case Ea: (dict_get "a_sigma"%string params) => [a|] //= [<-] /=.
  by exists dt, a.
Qed.

(** ** The correction phase *)

(** C1.  The second loop of [Estimate], for every tracked set.  With
    [y = x_obs - H * x_pred], [S = H * x_cov * H^T + R] and
    [K = x_cov * H^T * S^-1] taken at each object: when every object that
    is not marked done has a non-singular [S], the loop returns the
    tracked set in which each such object has the estimate
    [x_pred + K * y] and the covariance [(I - K * H) * x_cov], is marked
    done and is otherwise as it was, and in which every object that was
    marked done is unchanged; otherwise the loop raises [LinAlgError].
    In particular, whenever the loop returns, the entry of an identity is
    the corrected object (or the same object, if it was marked done). *)
Theorem correct_phase_spec flt st :
  let y o := x_obs o - H flt *m x_pred o in
  let S o := H flt *m x_cov o *m (H flt)^T + R flt in
  let K o := x_cov o *m (H flt)^T *m invmx (S o) in
  let correction o :=
    mkState (x_obs o) (x_pred o + K o *m y o) (x_pred o)
            ((1%:M - K o *m H flt) *m x_cov o)
            true (x_true o) (v_true o) in
  correct_phase flt st
  = (if all (fun kv => done kv.2 || (S kv.2 \in unitmx)) st
     then Ok [seq (kv.1, if done kv.2 then kv.2 else correction kv.2)
             | kv <- st]
     else Err LinAlgError)
  /\ forall st' oid o,
       correct_phase flt st = Ok st' -> dict_get oid st = Some o ->
       dict_get oid st' = Some (if done o then o else correction o)
       /\ (done o || (S o \in unitmx)).
Proof.
move=> y S K correction.
have E : correct_phase flt st
         = if all (fun kv => done kv.2 || (S kv.2 \in unitmx)) st
           then Ok [seq (kv.1, if done kv.2 then kv.2 else correction kv.2)
                   | kv <- st]
           else Err LinAlgError.
  elim: st => [|kv st IH] //=; rewrite correct_objectE IH.
  case: (done kv.2) => /=; first by case: ifP.
  rewrite -/(S kv.2) /innovation_cov -/(S kv.2).
  by case: (S kv.2 \in unitmx) => //=; case: ifP.
split=> // st' oid o Hst Ho.
have [o' Ho' Hc] := correct_phase_get Hst Ho.
move: Hst; rewrite E; case: ifP => // _ [<-].
rewrite (dict_get_map (fun o => if done o then o else correction o)) Ho /=.
split=> //; move: Hc; rewrite correct_objectE /innovation_cov -/(S o).
by case: (done o) => //=; case: ifP.
Qed.

(** The correction phase returns exactly when every unresolved object has
    a non-singular innovation covariance. *)
Lemma correct_phase_total flt st :
  all (fun kv => done kv.2 || (innovation_cov flt kv.2 \in unitmx)) st ->
  exists st', correct_phase flt st = Ok st'.
Proof.
by rewrite -correct_phase_ok; case: (correct_phase flt st) => // st' _; exists st'.
Qed.

(** C3.  Zero-innovation identity: an unresolved object whose observation
    is exactly [H * x_pred] and whose innovation covariance is
    non-singular is corrected successfully, and its estimate is then its
    predicted state, whatever its covariance and whatever [Q] and [R]. *)
Theorem zero_innovation flt o :
  done o = false ->
  H flt *m x_cov o *m (H flt)^T + R flt \in unitmx ->
  x_obs o = H flt *m x_pred o ->
  exists2 o', correct_object flt o = Ok o' & x_est o' = x_pred o.
Proof.
move=> Hd HS Hobs; rewrite correct_objectE Hd /innovation_cov HS.
exists (corrected flt o) => //=.
by rewrite /innovation Hobs subrr mulmx0 addr0.
Qed.

(** ** The association refresh *)

Lemma observe_objectE flt st item :
  observe_object flt st item
  = (o' <- observe_entry flt item.2 (dict_get item.1 st) ;;
     Ok (dict_set item.1 o' st)).
Proof.
rewrite /observe_object dict_get_mem /dict_getitem.
case: (dict_get item.1 st) => [o|] /=.
  by rewrite dict_get_set eqxx /= dict_set_set.
case: (InitializeObject _ _ _) => //= init.
by rewrite dict_get_set eqxx /= dict_set_set.
Qed.

Lemma observe_object_get flt st item st' oid :
  observe_object flt st item = Ok st' ->
  dict_get oid st' =
  if oid == item.1 then
    (if observe_entry flt item.2 (dict_get item.1 st) is Ok o' then Some o'
     else None)
  else dict_get oid st.
Proof.
rewrite observe_objectE.
case: (observe_entry _ _ _) => //= o' [<-].
by rewrite dict_get_set.
Qed.

(** The first loop, on any key list [ks] that is duplicate-free and only
    names keys of [d]. *)
Lemma stop_loop (input_data : frame_data) (ks : seq nat) (d : tracked_t) :
  uniq ks -> {subset ks <= dict_keys d} ->
  foldM (fun st oid =>
           if ~~ dict_mem oid input_data then dict_del oid st else Ok st)
        d ks
  = Ok [seq kv <- d | (kv.1 \notin ks) || dict_mem kv.1 input_data].
Proof.
elim: ks d => [|k ks IH] d /=.
  by move=> _ _; rewrite (@eq_filter _ _ predT) ?filter_predT.
case/andP=> nk uks sub.
have kd : dict_mem k d by apply: sub; rewrite mem_head.
have sub' : {subset ks <= dict_keys d}.
  by move=> x xks; apply: sub; rewrite in_cons xks orbT.
case: (boolP (dict_mem k input_data)) => kin /=.
  rewrite IH //; congr Ok; apply: eq_filter => kv.
  rewrite in_cons negb_or; case: (eqVneq kv.1 k) => [->|] //=.
  by rewrite kin !orbT.
have sub2 : {subset ks <= dict_keys (dict_remove k d)}.
  move=> x xks; rewrite -/(dict_mem x _) dict_mem_remove /dict_mem sub' // andbT.
  by apply: contraNneq nk => <-.
rewrite /dict_del kd /= IH //.
congr Ok; rewrite /dict_remove -filter_predI; apply: eq_filter => kv /=.
rewrite in_cons negb_or; case: (eqVneq kv.1 k) => [->|_] /=.
  by rewrite (negbTE kin) andbF.
by rewrite andbT.
Qed.

Lemma stop_trackingE (input_data : frame_data) (st : tracked_t) :
  wf_dict st ->
  stop_tracking input_data st
  = Ok [seq kv <- st | dict_mem kv.1 input_data].
Proof.
move=> wf; rewrite /stop_tracking stop_loop //; congr Ok.
exact: filter_own_keys.
Qed.

(** Without any assumption on the keys: whatever the first loop returns
    holds, for each identity, its old entry or none. *)
Lemma stop_tracking_get (input_data : frame_data) (st st' : tracked_t) oid :
  stop_tracking input_data st = Ok st' ->
  dict_get oid st' = None \/ dict_get oid st' = dict_get oid st.
Proof.
rewrite /stop_tracking; move: (dict_keys st) => ks.
elim: ks st => [|k ks IH] d /=; first by case=> ->; right.
case: (dict_mem k input_data) => /=; first exact: IH.
rewrite /dict_del; case: (dict_mem k d) => //= /IH [->|->]; first by left.
by rewrite dict_get_remove; case: ifP; [left | right].
Qed.

(** An invariant of all entries is kept by the second loop when the
    setters keep it and the initializer establishes it. *)
Lemma observe_loop_inv flt (P : KalmanObjectState -> Prop) items st st' :
  (forall o xo, P o -> P (SetObservation xo o)) ->
  (forall o xt vt, P o -> P (SetTrueState xt vt o)) ->
  (forall pos init,
     InitializeObject flt (parameters flt) pos = Ok init -> P (MarkDone init)) ->
  (forall oid o, dict_get oid st = Some o -> P o) ->
  foldM (observe_object flt) st items = Ok st' ->
  forall oid o, dict_get oid st' = Some o -> P o.
Proof.
move=> Pobs Ptrue Pinit; elim: items st => [|item items IH] st Hst /=.
  by case=> <-.
case E: (observe_object flt st item) => [st1|] //=; apply: IH => oid o.
rewrite (observe_object_get _ E); case: ifP => _; last exact: Hst.
case Ecur: (dict_get item.1 st) => [cur|] /=.
  by case=> <-; apply/Ptrue/Pobs/(Hst _ _ Ecur).
case Ei: (InitializeObject _ _ _) => [init|] //= [<-].
exact/Ptrue/(Pinit _ _ Ei).
Qed.

(** The second loop never changes the estimate, the prediction, the
    covariance or the flag of an entry that exists. *)
Lemma observe_loop_keep flt items st st' oid o :
  foldM (observe_object flt) st items = Ok st' ->
  dict_get oid st = Some o ->
  exists2 o', dict_get oid st' = Some o' &
    [/\ x_est o' = x_est o, x_pred o' = x_pred o, x_cov o' = x_cov o
      & done o' = done o].
Proof.
elim: items st o => [|item items IH] st o /=.
  by case=> <- ->; exists o.
case E: (observe_object flt st item) => [st1|] //= Hloop Ho.
have := observe_object_get oid E; case: (eqVneq oid item.1) => [e|_] H1.
  move: H1; rewrite -e Ho /= => H1.
  by have [o' Ho' [? ? ? ?]] := IH _ _ Hloop H1; exists o'.
by rewrite Ho in H1; apply: IH Hloop H1.
Qed.

(** An identity that is not tracked and occurs in the records is created
    by the initializer from its observed position and marked. *)
Lemma observe_loop_new flt (items : frame_data) st st' oid r :
  foldM (observe_object flt) st items = Ok st' ->
  dict_get oid st = None -> dict_get oid items = Some r ->
  exists init o',
    [/\ InitializeObject flt (parameters flt) (rec2 r) = Ok init,
        dict_get oid st' = Some o'
      & [/\ x_est o' = x_est init, x_pred o' = x_pred init,
            x_cov o' = x_cov init & done o' = true]].
Proof.
elim: items st => [|item items IH] st //=.
case E: (observe_object flt st item) => [st1|] //= Hloop Hnone.
have H1 := observe_object_get oid E.
case: (eqVneq item.1 oid) H1 => [e|ne] H1.
  case=> <-; move: H1 E; rewrite observe_objectE e Hnone /=.
  case Ei: (InitializeObject _ _ _) => [init|] //= H1 _.
  have [o' Ho' [? ? ? ?]] := observe_loop_keep Hloop H1.
  by exists init, o'; split.
by move=> Hr; apply: IH Hloop _ Hr; rewrite H1.
Qed.

(** Membership after the second loop. *)
Lemma observe_loop_mem flt (items : frame_data) st st' oid :
  foldM (observe_object flt) st items = Ok st' ->
  dict_mem oid st' = dict_mem oid st || dict_mem oid items.
Proof.
elim: items st => [|item items IH] st /=.
  by case=> <-; rewrite orbF.
case E: (observe_object flt st item) => [st1|] //= /IH ->.
move: E; rewrite observe_objectE; case: (observe_entry _ _ _) => //= o' [<-].
rewrite dict_mem_set /dict_mem /= in_cons.
by rewrite orbA [(oid == _) || _]orbC.
Qed.

Lemma dict_set_wf (K : eqType) (V : Type) (d : dict K V) k v :
  wf_dict d -> wf_dict (dict_set k v d).
Proof.
rewrite /wf_dict; elim: d => [|kv d IH] //=.
case: (eqVneq kv.1 k) => [e|ne] /= /andP [nin ud]; first by rewrite -e nin.
rewrite IH // andbT -/(dict_mem _ _) dict_mem_set negb_or ne.
by rewrite /dict_mem nin.
Qed.

Lemma observe_loop_wf flt (items : frame_data) st st' :
  foldM (observe_object flt) st items = Ok st' -> wf_dict st -> wf_dict st'.
Proof.
elim: items st => [|item items IH] st /=; first by case=> <-.
case E: (observe_object flt st item) => [st1|] //= /IH H wf; apply: H.
move: E; rewrite observe_objectE; case: (observe_entry _ _ _) => //= o' [<-].
exact: dict_set_wf.
Qed.

Lemma correct_phase_get_inv flt st st' oid o' :
  correct_phase flt st = Ok st' -> dict_get oid st' = Some o' ->
  exists2 o, dict_get oid st = Some o & correct_object flt o = Ok o'.
Proof.
elim: st st' => [|kv st IH] st' /=; first by case=> <-.
case Eo: (correct_object flt kv.2) => [s'|] //=.
case E: (correct_phase flt st) => [rest|] //= [<-] /=.
case: ifP => _; last exact: IH.
by case=> <-; exists kv.2.
Qed.

(** ** The covariance invariant *)

Lemma model_Q_ok dt a_sigma : cov_ok (model_Q dt a_sigma).
Proof.
split; first exact/sym_scale/sym_gram.
by apply: psd_scale (psd_gram _); rewrite -expr2 sqr_ge0.
Qed.

Lemma model_R_ok pos_sigma : cov_ok (model_R pos_sigma).
Proof. exact: cov_ok_scalar. Qed.

Lemma init_model dd init flt :
  KalmanFilterBasic_init dd init = Ok flt ->
  exists dt pos_sigma a_sigma,
    [/\ F flt = model_F dt, H flt = model_H, Q flt = model_Q dt a_sigma,
        R flt = model_R pos_sigma
      & [/\ InitializeObject flt = init, state flt = [::],
            parameter_file dd = Some (parameters flt) & data_dir flt = dd]].
Proof.
rewrite /KalmanFilterBasic_init /Predictor_init.
case: (parameter_file dd) => //= params; rewrite /dict_getitem.
case: (dict_get "dt"%string params) => [dt|] //=.
case: (dict_get "pos_sigma"%string params) => [ps|] //=.
case: (dict_get "a_sigma"%string params) => [a|] //= [<-] /=.
by exists dt, ps, a.
Qed.

Lemma SimpleRandomInitializer_cov_ok params pos init :
  SimpleRandomInitializer params pos = Ok init -> cov_ok (x_cov init).
Proof.
rewrite /SimpleRandomInitializer /dict_getitem.
case: (dict_get "pos_sigma"%string params) => [ps|] //=.
case: (dict_get "a_sigma"%string params) => [a|] //=.
case: (dict_get "v_mean"%string params) => [v|] //=.
case: (dict_get "dt"%string params) => [dt|] //= [<-] /=.
have [s1 p1] := cov_ok_scalar 2 ps; have [s2 p2] := cov_ok_scalar 2 a.
by split; [apply: sym_block_diag | apply: psd_block_diag].
Qed.

Lemma predict_cov_ok flt o :
  cov_ok (Q flt) -> cov_ok (x_cov o) -> cov_ok (x_cov (predict_object flt o)).
Proof.
move=> [sQ pQ] [sP pP]; split => /=.
  by apply: sym_add => //; apply: sym_congr.
by apply: psd_add => //; apply: psd_congr.
Qed.

Lemma correct_cov_ok flt o o' :
  cov_ok (R flt) -> cov_ok (x_cov o) -> correct_object flt o = Ok o' ->
  cov_ok (x_cov o').
Proof.
move=> [sR pR] [sP pP]; rewrite correct_objectE.
case: (done o); first by case=> <-.
case: ifP => // unitS [<-] /=; split.
  exact: corrected_cov_sym.
exact: corrected_cov_psd.
Qed.

(** With a non-zero observation noise the correction of an object whose
    covariance is positive semi-definite always returns. *)
Lemma correct_object_total flt o pos_sigma :
  R flt = model_R pos_sigma -> pos_sigma != 0 -> psd (x_cov o) ->
  is_ok (correct_object flt o).
Proof.
move=> ER ps0 pP; rewrite correct_objectE; case: (done o) => //.
by rewrite /innovation_cov (innovation_cov_unit _ pP ER ps0).
Qed.

Lemma Estimate_model flt frame flt' :
  Estimate flt frame = Ok flt' ->
  [/\ F flt' = F flt, H flt' = H flt, Q flt' = Q flt, R flt' = R flt
    & [/\ InitializeObject flt' = InitializeObject flt,
          parameters flt' = parameters flt & data_dir flt' = data_dir flt]].
Proof.
rewrite /Estimate; case: (UpdateTrackedObjects _ _ _) => //= st2.
by case: (correct_phase flt st2) => //= st3 [<-].
Qed.

Lemma ComputeError_model flt flt' :
  ComputeError flt = Ok flt' ->
  [/\ F flt' = F flt, H flt' = H flt, Q flt' = Q flt, R flt' = R flt
    & [/\ InitializeObject flt' = InitializeObject flt,
          parameters flt' = parameters flt, data_dir flt' = data_dir flt
        & state flt' = state flt]].
Proof.
rewrite /ComputeError; case: (foldM _ _ _) => //= acc.
by case: ifP => // _ [<-].
Qed.

Lemma Estimate_cov_invariant flt frame flt' :
  cov_ok (Q flt) -> cov_ok (R flt) ->
  (forall pos init,
     InitializeObject flt (parameters flt) pos = Ok init -> cov_ok (x_cov init)) ->
  cov_invariant (state flt) ->
  Estimate flt frame = Ok flt' -> cov_invariant (state flt').
Proof.
move=> HQ HR Hinit Hst; rewrite /Estimate /UpdateTrackedObjects.
case: (state_file _ _) => //= input_data.
case E1: (stop_tracking _ _) => [st1|] //=.
case E2: (foldM _ _ _) => [st2|] //=.
case E3: (correct_phase flt st2) => [st3|] //= [<-] /= oid o' Ho'.
have [o Ho Hc] := correct_phase_get_inv E3 Ho'.
apply: correct_cov_ok Hc => //.
apply: (observe_loop_inv (P := fun o => cov_ok (x_cov o)) _ _ _ _ E2 Ho) => //.
move=> oid1 o1 Ho1.
case: (stop_tracking_get oid1 E1); rewrite Ho1 //.
move=> /esym; rewrite /predict_phase dict_get_map.
case E0: (dict_get oid1 _) => [o0|] //= [<-].
exact/predict_cov_ok/(Hst _ _ E0).
Qed.

Lemma run_frames_cov_invariant flt log_freq f n flt' :
  cov_ok (Q flt) -> cov_ok (R flt) ->
  InitializeObject flt = SimpleRandomInitializer ->
  cov_invariant (state flt) ->
  run_frames flt log_freq f n = Ok flt' -> cov_invariant (state flt').
Proof.
elim: n flt f => [|n IH] flt f HQ HR Hi Hst /=; first by case=> <-.
case: ifP => // _.
case E1: (Estimate flt f) => [flt1|] //=.
case E2: (ComputeError flt1) => [flt2|] //=.
case: (if _ then _ else _) => [_|] //=.
have [_ _ eQ eR [eI _ _]] := Estimate_model E1.
have [_ _ eQ2 eR2 [eI2 _ _ eS]] := ComputeError_model E2.
apply: IH; rewrite ?eQ2 ?eQ ?eR2 ?eR ?eI2 ?eI ?eS //.
apply: Estimate_cov_invariant E1 => // pos init; rewrite Hi.
exact: SimpleRandomInitializer_cov_ok.
Qed.

(** C6, as amended: in exact arithmetic.  In a filter built by [__init__]
    the covariance of an object stays
    symmetric and positive semi-definite through the prediction update
    [F P F^T + Q] and through every correction update [(I - K H) P] that
    returns; and throughout a run started from the constructor with
    [SimpleRandomInitializer] every tracked object has a symmetric positive
    semi-definite covariance after every frame.  (Exact arithmetic.) *)
Theorem covariance_invariant dd flt0 :
  KalmanFilterBasic_init dd SimpleRandomInitializer = Ok flt0 ->
  [/\ forall o, cov_ok (x_cov o) -> cov_ok (x_cov (predict_object flt0 o)),
      forall o o', cov_ok (x_cov o) -> correct_object flt0 o = Ok o' ->
        cov_ok (x_cov o')
    & forall log_freq n flt',
        run_frames flt0 log_freq 0 n = Ok flt' ->
        forall oid o, dict_get oid (state flt') = Some o -> cov_ok (x_cov o)].
Proof.
move=> /init_model [dt [ps [a [eF eH eQ eR [eI eS _ _]]]]].
have HQ : cov_ok (Q flt0) by rewrite eQ; apply: model_Q_ok.
have HR : cov_ok (R flt0) by rewrite eR; apply: model_R_ok.
split.
- by move=> o; apply: predict_cov_ok.
- by move=> o o'; apply: correct_cov_ok.
- move=> log_freq n flt'; apply: run_frames_cov_invariant => //.
  by rewrite eS.
Qed.

(** ** New objects *)

(** C5.  An identity that is not tracked when [Estimate] starts and occurs
    in the frame's records is created by the initializer during the
    refresh and marked resolved there; the correction phase leaves that
    very object in place, so after [Estimate] its estimate (and its
    prediction and covariance) are the ones the initializer produced. *)
Theorem new_object_keeps_initial_estimate flt frame flt' input_data oid r :
  Estimate flt frame = Ok flt' ->
  state_file (data_dir flt) frame = Some input_data ->
  ~~ dict_mem oid (state flt) ->
  dict_get oid input_data = Some r ->
  exists init st2 o',
    [/\ InitializeObject flt (parameters flt) (rec2 r) = Ok init,
        UpdateTrackedObjects flt frame (predict_phase flt (state flt)) = Ok st2,
        dict_get oid st2 = Some o' /\ done o' = true,
        dict_get oid (state flt') = Some o'
      & [/\ x_est o' = x_est init, x_pred o' = x_pred init
          & x_cov o' = x_cov init]].
Proof.
rewrite /Estimate /UpdateTrackedObjects => + Hf; rewrite Hf.
case E1: (stop_tracking _ _) => [st1|] //=.
case E2: (foldM _ _ _) => [st2|] //=.
case E3: (correct_phase flt st2) => [st3|] //= [<-] /= Hnew Hr.
have Hnone : dict_get oid st1 = None.
  have H0 : dict_get oid (predict_phase flt (state flt)) = None.
    rewrite /predict_phase dict_get_map.
    by move: Hnew; rewrite dict_get_mem; case: (dict_get oid _).
  by case: (stop_tracking_get oid E1) => // ->.
have [init [o' [Hi Ho' [e1 e2 e3 e4]]]] := observe_loop_new E2 Hnone Hr.
exists init, st2, o'; split=> //.
have [o'' -> ] := correct_phase_get E3 Ho'.
by rewrite correct_objectE e4 => -[->].
Qed.

(** ** Error scoring *)

(** C8.  On an empty tracked set [ComputeError] divides [0] by [0] and
    raises: it returns no filter, so nothing is appended to either
    series. *)
Theorem ComputeError_empty flt :
  dict_len (state flt) = 0%N -> ComputeError flt = Err ZeroDivisionError.
Proof.
by rewrite /ComputeError /dict_len => /size0nil ->.
Qed.

(** When [ComputeError] does return, the tracked set was not empty and
    each series has grown by one value. *)
Lemma ComputeError_ok flt flt' :
  ComputeError flt = Ok flt' ->
  [/\ dict_len (state flt) != 0%N,
      size (pos_error flt') = (size (pos_error flt)).+1
    & size (vel_error flt') = (size (vel_error flt)).+1].
Proof.
rewrite /ComputeError; case: (foldM _ _ _) => //= acc.
by case: ifP => // /negbT ne [<-] /=; rewrite !size_rcons.
Qed.

(** ** Identities that disappear *)

(** The refresh as a whole, on a well-formed tracked set. *)
Lemma UpdateTrackedObjectsE flt frame st input_data :
  wf_dict st -> state_file (data_dir flt) frame = Some input_data ->
  UpdateTrackedObjects flt frame st
  = foldM (observe_object flt)
          [seq kv <- st | dict_mem kv.1 input_data] (dict_items input_data).
Proof. by move=> wf Hf; rewrite /UpdateTrackedObjects Hf (stop_trackingE _ wf). Qed.

Lemma predict_phase_wf flt st : wf_dict st -> wf_dict (predict_phase flt st).
Proof.
by rewrite /wf_dict (dict_keys_map (fun _ => predict_object flt)).
Qed.

Lemma Estimate_wf flt frame flt' :
  wf_dict (state flt) -> Estimate flt frame = Ok flt' -> wf_dict (state flt').
Proof.
move=> wf; rewrite /Estimate /UpdateTrackedObjects.
case: (state_file _ _) => //= input_data.
rewrite (stop_trackingE _ (predict_phase_wf flt wf)) /=.
case E2: (foldM _ _ _) => [st2|] //=.
case E3: (correct_phase flt st2) => [st3|] //= [<-] /=.
rewrite /wf_dict (correct_phase_keys E3); apply: observe_loop_wf E2 _.
exact/(filter_wf (fun k => dict_mem k input_data))/predict_phase_wf.
Qed.

Lemma correct_phase_set_state flt x st :
  correct_phase (set_state x flt) st = correct_phase flt st.
Proof. by elim: st => [|kv st IH] //=; rewrite IH. Qed.

Lemma Estimate_forgets flt frame input_data oid :
  wf_dict (state flt) ->
  state_file (data_dir flt) frame = Some input_data ->
  ~~ dict_mem oid input_data ->
  Estimate (set_state (dict_remove oid (state flt)) flt) frame
  = Estimate flt frame.
Proof.
move=> wf Hf Hout; rewrite /Estimate /=.
rewrite (UpdateTrackedObjectsE (predict_phase_wf flt wf) Hf).
have wf' := predict_phase_wf flt (dict_remove_wf oid wf).
rewrite (UpdateTrackedObjectsE (flt := set_state _ flt) wf' Hf).
have -> : [seq kv <- predict_phase flt (dict_remove oid (state flt))
             | dict_mem kv.1 input_data]
          = [seq kv <- predict_phase flt (state flt)
               | dict_mem kv.1 input_data].
  rewrite /predict_phase /dict_items /dict_remove !filter_map -filter_predI.
  congr map; apply: eq_filter => kv /=.
  by case: (eqVneq kv.1 oid) => [->|]; rewrite ?andbT // (negbTE Hout).
rewrite -[foldM (observe_object (set_state _ flt))]/(foldM (observe_object flt)).
case: (foldM _ _ _) => //= st2.
by rewrite correct_phase_set_state.
Qed.

(** C9.  An identity that is missing from a frame's records is not a key
    of the tracked set after that frame's refresh, nor after its
    [Estimate]; the whole [Estimate] call, and with it the rest of the run
    (every later correction and every later error value), is the same as
    if the identity had not been tracked at all. *)
Theorem dropped_identity flt frame input_data oid :
  wf_dict (state flt) ->
  state_file (data_dir flt) frame = Some input_data ->
  ~~ dict_mem oid input_data ->
  [/\ forall st2,
        UpdateTrackedObjects flt frame (predict_phase flt (state flt)) = Ok st2 ->
        dict_get oid st2 = None,
      forall flt', Estimate flt frame = Ok flt' ->
        dict_get oid (state flt') = None,
      Estimate (set_state (dict_remove oid (state flt)) flt) frame
      = Estimate flt frame
    & forall log_freq n,
        run_frames (set_state (dict_remove oid (state flt)) flt)
                   log_freq frame n.+1
        = run_frames flt log_freq frame n.+1].
Proof.
move=> wf Hf Hout.
have Hupd st2 :
    UpdateTrackedObjects flt frame (predict_phase flt (state flt)) = Ok st2 ->
    dict_get oid st2 = None.
  rewrite (UpdateTrackedObjectsE (predict_phase_wf flt wf) Hf).
  move=> /(observe_loop_mem oid); rewrite (negbTE Hout) orbF.
  rewrite [in RHS]/dict_mem (dict_keys_filter (fun k => dict_mem k input_data)).
  rewrite mem_filter (negbTE Hout) /= dict_get_mem.
  by case: (dict_get oid st2).
split=> //.
- move=> flt'; rewrite /Estimate.
  case E: (UpdateTrackedObjects _ _ _) => [st2|] //=.
  case E3: (correct_phase flt st2) => [st3|] //= [<-] /=.
  have := dict_get_mem st3 oid.
  rewrite /dict_mem (correct_phase_keys E3) -/(dict_mem _ _) dict_get_mem.
  by rewrite (Hupd _ E) /=; case: (dict_get oid st3).
- exact: Estimate_forgets Hf Hout.
- by move=> log_freq n /=; rewrite (Estimate_forgets _ Hf Hout).
Qed.

(** ** The removal loop *)

Lemma delete_loop (ks : seq nat) (d : tracked_t) :
  uniq ks -> {subset ks <= dict_keys d} ->
  foldM (fun st oid => dict_del oid st) d ks
  = Ok [seq kv <- d | kv.1 \notin ks].
Proof.
elim: ks d => [|k ks IH] d /=.
  by move=> _ _; rewrite (@eq_filter _ _ predT) ?filter_predT.
case/andP=> nk uks sub.
have kd : dict_mem k d by apply: sub; rewrite mem_head.
have sub2 : {subset ks <= dict_keys (dict_remove k d)}.
  move=> x xks; rewrite -/(dict_mem x _) dict_mem_remove /dict_mem.
  rewrite sub ?in_cons ?xks ?orbT // andbT.
  by apply: contraNneq nk => <-.
rewrite /dict_del kd /= IH //; congr Ok.
rewrite /dict_remove -filter_predI; apply: eq_filter => kv /=.
by rewrite in_cons negb_or andbC.
Qed.

(** C10.  On a dictionary (distinct keys) the removal loop of
    [UpdateTrackedObjects] never raises, whatever the frame's records and
    however many identities they drop; it returns the tracked set without
    the unobserved identities, and that is what the two-phase removal the
    specification describes returns.  The loop walks the list
    [self.state.keys()] built before it starts, not the mapping it
    deletes from. *)
Theorem removal_is_two_phase (input_data : frame_data) (st : tracked_t) :
  wf_dict st ->
  [/\ stop_tracking input_data st
      = Ok [seq kv <- st | dict_mem kv.1 input_data],
      stop_tracking input_data st = stop_tracking_two_phase input_data st
    & forall flt frame,
        state_file (data_dir flt) frame = Some input_data ->
        UpdateTrackedObjects flt frame st
        = foldM (observe_object flt)
                [seq kv <- st | dict_mem kv.1 input_data]
                (dict_items input_data)].
Proof.
move=> wf; split; first exact: stop_trackingE.
- set removals := [seq oid <- dict_keys st | ~~ dict_mem oid input_data].
  have uniq_removals : uniq removals by apply: filter_uniq.
  have sub : {subset removals <= dict_keys st}.
    by move=> x; rewrite mem_filter => /andP [].
  rewrite (stop_trackingE _ wf) /stop_tracking_two_phase -/removals.
  rewrite (delete_loop uniq_removals sub); congr Ok.
  rewrite -(@filter_own_keys _ _ (fun k => dict_mem k input_data) st
                             (dict_keys st)) //.
  apply: eq_filter => kv /=.
  by rewrite mem_filter negb_and negbK orbC.
- by move=> flt frame Hf; apply: UpdateTrackedObjectsE.
Qed.

(** Under the live-view reading the loop raises as soon as the records drop
    one tracked identity; the key list taken by [keys()] is what makes the
    loop of this program safe. *)
Lemma live_loop_raises (input_data : frame_data) n0 ks (st : tracked_t) :
  {subset ks <= dict_keys st} -> uniq ks ->
  has (fun oid => ~~ dict_mem oid input_data) ks ->
  live_loop n0 input_data ks st = Err RuntimeError.
Proof.
elim: ks st => [|k ks IH] st //= sub /andP [nk uks].
case: (eqVneq (dict_len st) n0) => [e|//] /=.
have kd : dict_mem k st by apply: sub; rewrite mem_head.
case: (boolP (dict_mem k input_data)) => kin /= Hhas.
  apply: IH => //; first by move=> x xks; apply: sub; rewrite in_cons xks orbT.
rewrite /dict_del kd /=.
have Hlt : (dict_len (dict_remove k st) < n0)%N.
  by rewrite -e /dict_len dict_remove_size.
by case: ks {IH sub nk uks Hhas} => [|k' ks] /=; rewrite (ltn_eqF Hlt).
Qed.

Lemma stop_tracking_live_raises (input_data : frame_data) (st : tracked_t) :
  wf_dict st ->
  has (fun oid => ~~ dict_mem oid input_data) (dict_keys st) ->
  stop_tracking_live input_data st = Err RuntimeError.
Proof. by move=> wf; apply: live_loop_raises. Qed.


(** ** Configuration errors *)

Lemma observe_loop_new_fails flt (items : frame_data) st oid :
  (forall pos, InitializeObject flt (parameters flt) pos = Err KeyError) ->
  dict_mem oid items -> ~~ dict_mem oid st ->
  foldM (observe_object flt) st items = Err KeyError.
Proof.
move=> Hinit; elim: items st => [|item items IH] st //=.
move=> Hin Hout; move: Hin.
rewrite /dict_mem /= in_cons -/(dict_mem oid items) => Hin.
rewrite observe_objectE.
case Ecur: (dict_get item.1 st) => [cur|] /=; last by rewrite Hinit.
have ne : oid != item.1.
  by apply: contraNneq Hout => ->; rewrite dict_get_mem Ecur.
apply: IH; first by move: Hin; rewrite (negbTE ne).
by rewrite dict_mem_set negb_or ne.
Qed.

(** C7, as the code has it.  The constructor reads [dt], [pos_sigma] and
    [a_sigma] and nothing else: it raises [KeyError] exactly when one of
    the three is missing, before any frame is processed.  [v_mean] is read
    by [SimpleRandomInitializer] only: when it is missing the constructor
    succeeds all the same, and [KeyError] is raised inside [Estimate], at
    the first frame whose records hold an identity that is not tracked. *)
Theorem configuration_errors dd init params :
  parameter_file dd = Some params ->
  [/\ is_ok (KalmanFilterBasic_init dd init)
      = [&& dict_mem "dt"%string params, dict_mem "pos_sigma"%string params
          & dict_mem "a_sigma"%string params],
      forall e, KalmanFilterBasic_init dd init = Err e -> e = KeyError,
      ~~ dict_mem "v_mean"%string params ->
      forall pos, SimpleRandomInitializer params pos = Err KeyError
    & ~~ dict_mem "v_mean"%string params ->
      forall flt frame input_data oid,
        parameters flt = params ->
        InitializeObject flt = SimpleRandomInitializer ->
        wf_dict (state flt) ->
        state_file (data_dir flt) frame = Some input_data ->
        dict_mem oid input_data -> ~~ dict_mem oid (state flt) ->
        Estimate flt frame = Err KeyError].
Proof.
move=> Hp.
have Hsri : ~~ dict_mem "v_mean"%string params ->
    forall pos, SimpleRandomInitializer params pos = Err KeyError.
  rewrite dict_get_mem /SimpleRandomInitializer /dict_getitem => Hv pos.
  case: (dict_get "pos_sigma"%string params) => [ps|] //=.
  case: (dict_get "a_sigma"%string params) => [a|] //=.
  by case: (dict_get "v_mean"%string params) Hv.
split=> //.
- rewrite /KalmanFilterBasic_init /Predictor_init Hp /= !dict_get_mem.
  rewrite /dict_getitem.
  case: (dict_get "dt"%string params) => [dt|] //=.
  case: (dict_get "pos_sigma"%string params) => [ps|] //=.
  by case: (dict_get "a_sigma"%string params) => [a|].
- move=> e; rewrite /KalmanFilterBasic_init /Predictor_init Hp /=.
  rewrite /dict_getitem.
  case: (dict_get "dt"%string params) => [dt|] /=; last by case.
  case: (dict_get "pos_sigma"%string params) => [ps|] /=; last by case.
  by case: (dict_get "a_sigma"%string params) => [a|] //=; case.
- move=> Hv flt frame input_data oid eP eI wf Hf Hin Hout.
  rewrite /Estimate (UpdateTrackedObjectsE (predict_phase_wf flt wf) Hf).
  rewrite (@observe_loop_new_fails _ _ _ oid) //.
  + by move=> pos; rewrite eI eP Hsri.
  + rewrite /dict_mem (dict_keys_filter (fun k => dict_mem k input_data)).
    rewrite mem_filter negb_and; apply/orP; right.
    by rewrite /predict_phase (dict_keys_map (fun _ => predict_object flt)).
Qed.

(** ** The initialization heuristic *)

Lemma argmin_from_first (p s : seq real) (b : real) :
  b \in p -> (forall y, y \in p -> b <= y) ->
  first_min (p ++ s) (argmin_from (seq.index b p) b (size p) s).
Proof.
elim: s p b => [|x s IH] p b bp bmin /=.
  by rewrite cats0; split; rewrite ?index_mem ?nth_index.
case: ltP => xb.
  have := IH (rcons p x) x; rewrite size_rcons cat_rcons -cats1 index_cat.
  have -> /= : (x \in p) = false.
    by apply/negP => /bmin; rewrite leNgt xb.
  rewrite eqxx addn0 mem_cat mem_seq1 eqxx orbT; apply=> // y.
  rewrite mem_cat mem_seq1 => /orP [/bmin|/eqP -> //].
  by apply: le_trans; apply: ltW.
have := IH (rcons p x) b; rewrite size_rcons cat_rcons -cats1 index_cat bp.
rewrite mem_cat bp; apply=> // y.
by rewrite mem_cat mem_seq1 => /orP [/bmin|/eqP ->].
Qed.

Lemma argmin_first (s : seq real) : s != [::] -> first_min s (argmin s).
Proof.
case: s => [|x s] // _.
have := @argmin_from_first [:: x] s x; rewrite /= eqxx mem_seq1 eqxx.
by apply=> // y; rewrite mem_seq1 => /eqP ->.
Qed.

Lemma vec2_0 a b : vec2 a b 0 0 = a.
Proof. by rewrite mxE. Qed.

Lemma vec2_1 a b : vec2 a b 1 0 = b.
Proof. by rewrite mxE. Qed.

Lemma fixture_argmin :
  argmin [seq `|m| | m <- [:: -1; -1; 0; 0 : real]] = 2%N.
Proof. by rewrite /= normrN1 normr0 !ltxx ltr01. Qed.

Lemma fixture_init :
  SimpleRandomInitializer fixture_params (vec2 0 0)
  = Ok (mkState (vec2 0 0)
                (col_mx (vec2 0 0) (vec2 (-1) 0))
                (col_mx (vec2 0 0) (vec2 (-1) 0))
                (block_mx ((1 * 1) *: eye2) 0 0
                          ((10%:R^-1 * 10%:R^-1) *: eye2))
                true None None).
Proof.
rewrite /SimpleRandomInitializer /fixture_params /dict_getitem /=.
by rewrite !vec2_0 !vec2_1 mulr1 subrr !sub0r oppr0 normrN1 normr0 !ltxx ltr01.
Qed.

(** C4.  The initialization fixture: with [dt = 1], [pos_sigma = 1],
    [a_sigma = 1/10], [v_mean = 1] and an object observed at [(0, 0)],
    [delta] is [1], the distance vector is [[-1, -1, 0, 0]], the first
    position of least absolute value is index 2, and the object returned
    has observation [(0, 0)], estimate and prediction [(0, 0, -1, 0)], the
    block-diagonal covariance of [pos_sigma^2 I] and [a_sigma^2 I], and is
    already marked resolved.  In general the selected index is the first
    position holding the least absolute value. *)
Theorem initialization_fixture :
  let pos := vec2 0 0 in
  let delta : real := 1 * 1 in
  let mean := [:: pos 0 0 - delta; pos 1 0 - delta;
                  pos 0 0 - (1 - delta); pos 1 0 - (1 - delta)] in
  [/\ delta = 1,
      mean = [:: -1; -1; 0; 0],
      argmin [seq `|m| | m <- mean] = 2%N,
      SimpleRandomInitializer fixture_params pos
      = Ok (mkState (vec2 0 0)
                    (col_mx (vec2 0 0) (vec2 (-1) 0))
                    (col_mx (vec2 0 0) (vec2 (-1) 0))
                    (block_mx ((1 * 1) *: eye2) 0 0
                              ((10%:R^-1 * 10%:R^-1) *: eye2))
                    true None None)
    & forall s : seq real, s != [::] -> first_min s (argmin s)].
Proof.
move=> pos delta mean.
have Ed : delta = 1 by rewrite /delta mulr1.
have Em : mean = [:: -1; -1; 0; 0].
  by rewrite /mean /pos !vec2_0 !vec2_1 Ed subrr !sub0r oppr0.
split=> //; first by rewrite Em fixture_argmin.
- exact: fixture_init.
- exact: argmin_first.
Qed.

(** ** The scenario *)

Lemma ex_construct :
  KalmanFilterBasic_init ex_dir SimpleRandomInitializer = Ok ex_filter0.
Proof. by []. Qed.

Lemma cx_construct :
  KalmanFilterBasic_init cx_dir SimpleRandomInitializer = Ok cx_filter.
Proof. by []. Qed.

Lemma ex_estimate0 : Estimate ex_filter0 0 = Ok ex_filter1.
Proof.
rewrite /Estimate /UpdateTrackedObjects /= /observe_object /=.
rewrite !vec2_0 !vec2_1 mulr1 subrr !sub0r oppr0 normrN1 normr0 !ltxx ltr01.
by rewrite /= /ex_filter1 /ex_object /ex_init mulr1.
Qed.

Lemma cx_estimate0 : Estimate cx_filter 0 = Err KeyError.
Proof. by []. Qed.

Lemma ex_object_cov_ok : cov_ok (x_cov ex_object).
Proof.
have [s1 p1] := cov_ok_scalar 2 (1 : real).
have [s2 p2] := cov_ok_scalar 2 (10%:R^-1 : real).
by split; [apply: sym_block_diag | apply: psd_block_diag].
Qed.

Lemma ex_unresolved_unit (o : KalmanObjectState) :
  x_cov o = x_cov ex_unresolved ->
  H ex_filter1 *m x_cov o *m (H ex_filter1)^T + R ex_filter1 \in unitmx.
Proof.
move=> ->; have [_ pP] := predict_cov_ok (flt := ex_filter1)
                            (model_Q_ok 1 10%:R^-1) ex_object_cov_ok.
exact: (innovation_cov_unit _ pP (erefl : R ex_filter1 = _) (oner_neq0 _)).
Qed.

Lemma ex_correct :
  correct_phase ex_filter1 [:: (7%N, ex_unresolved)]
  = Ok [:: (7%N, corrected ex_filter1 ex_unresolved)].
Proof.
rewrite /correct_phase correct_objectE /= /innovation_cov.
by rewrite ex_unresolved_unit.
Qed.

(** ** The frame cycle as a whole *)

Lemma dict_get_filter (K : eqType) (V : Type) (p : pred K) (d : dict K V) k :
  dict_get k [seq kv <- d | p kv.1] = if p k then dict_get k d else None.
Proof.
elim: d => [|kv d IH] /=; first by rewrite if_same.
case: (boolP (p kv.1)) => pk /=; rewrite IH.
  by case: (eqVneq kv.1 k) => [<-|//]; rewrite pk.
by case: (eqVneq kv.1 k) => [<-|//]; rewrite (negbTE pk).
Qed.

(** Membership after the refresh: the tracked identities are those of the
    records. *)
Lemma UpdateTrackedObjects_mem flt frame st st2 input_data oid :
  wf_dict st -> state_file (data_dir flt) frame = Some input_data ->
  UpdateTrackedObjects flt frame st = Ok st2 ->
  dict_mem oid st2 = dict_mem oid input_data.
Proof.
move=> wf Hf; rewrite (UpdateTrackedObjectsE wf Hf) => /(observe_loop_mem oid) ->.
rewrite /dict_mem (dict_keys_filter (fun k => dict_mem k input_data)).
by rewrite mem_filter /dict_mem; case: (oid \in dict_keys input_data); rewrite ?orbT.
Qed.

(** Items for other identities leave an entry alone. *)
Lemma observe_loop_other flt (items : frame_data) st st' oid :
  ~~ dict_mem oid items ->
  foldM (observe_object flt) st items = Ok st' ->
  dict_get oid st' = dict_get oid st.
Proof.
elim: items st => [|item items IH] st /=; first by move=> _ [<-].
rewrite /dict_mem /= in_cons negb_or => /andP [ne nin].
case E: (observe_object flt st item) => [st1|] //= /(IH _ nin) ->.
by rewrite (observe_object_get _ E) (negbTE ne).
Qed.

(** With distinct record keys every identity of the records is handled
    once, by [observe_entry]. *)
Lemma observe_loop_entry flt (items : frame_data) st st' oid r :
  wf_dict items ->
  foldM (observe_object flt) st items = Ok st' ->
  dict_get oid items = Some r ->
  exists2 o', observe_entry flt r (dict_get oid st) = Ok o'
            & dict_get oid st' = Some o'.
Proof.
rewrite /wf_dict; elim: items st => [|item items IH] st //= /andP [nin ui].
case E: (observe_object flt st item) => [st1|] //= Hloop.
have H1 := observe_object_get oid E.
case: (eqVneq item.1 oid) H1 => [e|ne] H1; last first.
  by move=> Hr; have := IH _ ui Hloop Hr; rewrite H1.
case=> <-; move: H1 E; rewrite observe_objectE e.
case Ee: (observe_entry _ _ _) => [o'|] //= H1 _.
exists o' => //; rewrite -H1; apply: observe_loop_other Hloop.
by rewrite -e.
Qed.

(** Every identity of the records ends the second loop with its true
    state set. *)
Lemma observe_loop_truth flt (items : frame_data) st st' oid o :
  foldM (observe_object flt) st items = Ok st' ->
  dict_mem oid items -> dict_get oid st' = Some o -> has_truth o.
Proof.
elim: items st => [|item items IH] st //=.
case E: (observe_object flt st item) => [st1|] //= Hloop.
case: (boolP (dict_mem oid items)) => [Hin _|Hnin]; first exact: IH Hloop Hin.
rewrite /dict_mem /= in_cons -/(dict_mem oid items) (negbTE Hnin) orbF.
move=> /eqP e; rewrite (observe_loop_other Hnin Hloop).
rewrite (observe_object_get _ E) e eqxx.
case: (dict_get item.1 st) => [cur|] /=; first by case=> <-.
by case: (InitializeObject _ _ _) => //= init [<-].
Qed.

Lemma observe_loop_total flt (items : frame_data) st :
  (forall pos, is_ok (InitializeObject flt (parameters flt) pos)) ->
  is_ok (foldM (observe_object flt) st items).
Proof.
move=> Hinit; elim: items st => [|item items IH] st //=.
rewrite observe_objectE; case: (dict_get item.1 st) => [cur|] /=.
  exact: IH.
by have := Hinit (rec2 item.2); case: (InitializeObject _ _ _) => //= init _.
Qed.

Lemma correct_object_keeps flt o o' :
  correct_object flt o = Ok o' ->
  [/\ x_obs o' = x_obs o, x_true o' = x_true o, v_true o' = v_true o
    & done o' = true].
Proof.
rewrite correct_objectE; case Ed: (done o); first by case=> <-.
by case: ifP => // _ [<-].
Qed.

Lemma correct_phase_all_done flt st st' :
  correct_phase flt st = Ok st' -> all (fun kv => done kv.2) st'.
Proof.
elim: st st' => [|kv st IH] st' /=; first by case=> <-.
case Eo: (correct_object flt kv.2) => [s'|] //=.
case E: (correct_phase flt st) => [rest|] //= [<-] /=.
by have [_ _ _ ->] := correct_object_keeps Eo; rewrite (IH _ E).
Qed.

Lemma correct_phase_done_id flt st :
  all (fun kv => done kv.2) st -> correct_phase flt st = Ok st.
Proof.
elim: st => [|[k o] st IH] //= /andP [Hd Hall].
by rewrite /correct_object /IsDone Hd /= IH.
Qed.

(** X1.  After a successful [Estimate] the tracked identities are exactly
    the identities of the frame's records. *)
Theorem Estimate_tracks_records flt frame flt' input_data :
  wf_dict (state flt) ->
  state_file (data_dir flt) frame = Some input_data ->
  Estimate flt frame = Ok flt' ->
  forall oid, dict_mem oid (state flt') = dict_mem oid input_data.
Proof.
move=> wf Hf; rewrite /Estimate.
case E: (UpdateTrackedObjects _ _ _) => [st2|] //=.
case E3: (correct_phase flt st2) => [st3|] //= [<-] oid /=.
rewrite /dict_mem (correct_phase_keys E3) -/(dict_mem oid st2).
exact: UpdateTrackedObjects_mem (predict_phase_wf flt wf) Hf E.
Qed.

(** X2.  One frame for an identity that was tracked and is observed again
    (record keys distinct): its new state is the correction of its
    prediction, taken with the record's observation and true state.  The
    refresh in between changes neither estimate nor covariance. *)
Theorem Estimate_continues flt frame flt' input_data oid o r :
  wf_dict (state flt) -> wf_dict input_data ->
  state_file (data_dir flt) frame = Some input_data ->
  dict_get oid (state flt) = Some o ->
  dict_get oid input_data = Some r ->
  Estimate flt frame = Ok flt' ->
  let o1 := SetTrueState (rec0 r) (rec1 r)
              (SetObservation (rec2 r) (predicted flt o)) in
  innovation_cov flt o1 \in unitmx /\
  dict_get oid (state flt') = Some (corrected flt o1).
Proof.
move=> wf wfi Hf Ho Hr; rewrite /Estimate.
rewrite (UpdateTrackedObjectsE (predict_phase_wf flt wf) Hf).
case E2: (foldM _ _ _) => [st2|] //=.
case E3: (correct_phase flt st2) => [st3|] //= [<-] /=.
have [o2] := observe_loop_entry wfi E2 Hr.
rewrite (dict_get_filter (fun k => dict_mem k input_data)).
rewrite [dict_mem oid input_data]dict_get_mem Hr /=.
rewrite /predict_phase dict_get_map Ho /= => -[<-] Ho2.
have [o3 -> ] := correct_phase_get E3 Ho2.
by rewrite correct_objectE /=; case: ifP => // HS [<-].
Qed.

(** X3.  After a successful [Estimate] every tracked object is marked
    done, so running the correction loop once more changes nothing. *)
Theorem Estimate_resolves_all flt frame flt' :
  Estimate flt frame = Ok flt' ->
  all (fun kv => done kv.2) (state flt')
  /\ correct_phase flt' (state flt') = Ok (state flt').
Proof.
rewrite /Estimate; case: (UpdateTrackedObjects _ _ _) => //= st2.
case E3: (correct_phase flt st2) => [st3|] //= [<-] /=.
have Hall := correct_phase_all_done E3.
by split=> //; apply: correct_phase_done_id.
Qed.

Lemma SimpleRandomInitializer_shape params pos s :
  SimpleRandomInitializer params pos = Ok s ->
  exists ps a v vel,
    [/\ dict_get "pos_sigma"%string params = Some ps,
        dict_get "a_sigma"%string params = Some a,
        dict_get "v_mean"%string params = Some v,
        vel \in [:: vec2 v 0; vec2 0 v; vec2 (- v) 0; vec2 0 (- v)]
      & s = mkState pos (col_mx pos vel) (col_mx pos vel)
              (block_mx ((ps * ps) *: eye2) 0 0 ((a * a) *: eye2))
              true None None].
Proof.
rewrite /SimpleRandomInitializer /dict_getitem.
case: (dict_get "pos_sigma"%string params) => [ps|] //; rewrite /bind.
case: (dict_get "a_sigma"%string params) => [a|] //.
case: (dict_get "v_mean"%string params) => [v|] //.
case: (dict_get "dt"%string params) => [dt|] //.
move: (argmin _) => side [<-].
exists ps, a, v.
exists (if side == 0%N then vec2 v 0
        else if side == 1%N then vec2 0 v
        else if side == 2%N then vec2 (- v) 0 else vec2 0 (- v)).
split=> //.
by rewrite !inE; do 3 ![case: ifP => _; first by rewrite eqxx ?orbT]; rewrite eqxx ?orbT.
Qed.

(** X4.  After a successful [Estimate] every tracked object carries the
    true position and velocity of its record in this frame (record keys
    distinct), and also the record's observed position when it was
    tracked before or when new objects are made by
    [SimpleRandomInitializer]. *)
Theorem Estimate_sets_truth flt frame flt' input_data oid r :
  wf_dict (state flt) -> wf_dict input_data ->
  state_file (data_dir flt) frame = Some input_data ->
  dict_get oid input_data = Some r ->
  Estimate flt frame = Ok flt' ->
  exists2 o', dict_get oid (state flt') = Some o' &
    [/\ x_true o' = Some (rec0 r), v_true o' = Some (rec1 r),
        dict_mem oid (state flt) -> x_obs o' = rec2 r
      & InitializeObject flt = SimpleRandomInitializer -> x_obs o' = rec2 r].
Proof.
move=> wf wfi Hf Hr; rewrite /Estimate.
rewrite (UpdateTrackedObjectsE (predict_phase_wf flt wf) Hf).
case E2: (foldM _ _ _) => [st2|] //=.
case E3: (correct_phase flt st2) => [st3|] //= [<-] /=.
have [o2] := observe_loop_entry wfi E2 Hr.
rewrite (dict_get_filter (fun k => dict_mem k input_data)).
rewrite [dict_mem oid input_data]dict_get_mem Hr /=.
rewrite /predict_phase dict_get_map [dict_mem oid (state flt)]dict_get_mem.
move=> He Ho2; have [o3 Ho3 Hc] := correct_phase_get E3 Ho2.
have [e1 e2 e3 _] := correct_object_keeps Hc.
exists o3 => //; rewrite e1 e2 e3.
case: (dict_get oid (state flt)) He => [o|] /=; first by case=> <-.
case Ei: (InitializeObject _ _ _) => [init|] //= [<-] /=; split=> // eI.
move: Ei; rewrite eI => /SimpleRandomInitializer_shape.
by case=> ps [a [v [vel [_ _ _ _ ->]]]].
Qed.

(** ** The correction never adds uncertainty *)

Lemma form_delta n (A : 'M[real]_n) (i : 'I_n) :
  let e : 'rV[real]_n := delta_mx 0 i in (e *m A *m e^T) 0 0 = A i i.
Proof. by rewrite /= -rowE trmx_delta -colE !mxE. Qed.

Lemma corrected_form_le n m (P : 'M[real]_n) (Hm : 'M[real]_(m, n))
    (Rm : 'M[real]_m) (x : 'rV[real]_n) :
  symmetric P -> psd P -> psd Rm ->
  Hm *m P *m Hm^T + Rm \in unitmx ->
  (x *m ((1%:M - P *m Hm^T *m invmx (Hm *m P *m Hm^T + Rm) *m Hm) *m P)
     *m x^T) 0 0
  <= (x *m P *m x^T) 0 0.
Proof.
move=> symP psdP psdR; set S := _ + Rm; set K := _ *m invmx S => unitS.
set u := x *m K.
have uS : u *m S = x *m P *m Hm^T by rewrite /u /K !mulmxA mulmxKV.
have E1 : x *m P *m Hm^T *m u^T = u *m S *m u^T by rewrite uS.
have E2 : u *m Hm *m P *m x^T = u *m S *m u^T.
  rewrite -[LHS]trmx11 -E1 !trmx_mul !trmxK symP.
  by rewrite !mulmxA.
have psdS : psd S by apply: psd_add => //; apply: psd_congr.
rewrite mulmxBl mul1mx mulmxBr mulmxBl.
have -> : x *m (K *m Hm *m P) *m x^T = u *m Hm *m P *m x^T.
  by rewrite /u !mulmxA.
have subE (A B : 'M[real]_1) : (A - B) 0 0 = A 0 0 - B 0 0 by rewrite !mxE.
by rewrite E2 subE lerBlDr lerDl; apply: psdS.
Qed.

(** X5.  A correction that returns never increases the uncertainty of an
    object whose covariance is symmetric positive semi-definite (with a
    positive semi-definite [R]): every quadratic form of the covariance,
    and so every variance on its diagonal, is at most what it was. *)
Theorem correction_shrinks_covariance flt o o' :
  psd (R flt) -> cov_ok (x_cov o) ->
  correct_object flt o = Ok o' ->
  (forall x : 'rV[real]_(2 + 2),
     (x *m x_cov o' *m x^T) 0 0 <= (x *m x_cov o *m x^T) 0 0)
  /\ (forall i, x_cov o' i i <= x_cov o i i).
Proof.
move=> pR [sP pP] Hc.
have Hform (x : 'rV[real]_(2 + 2)) :
    (x *m x_cov o' *m x^T) 0 0 <= (x *m x_cov o *m x^T) 0 0.
  move: Hc; rewrite correct_objectE; case: (done o); first by case=> <-.
  case: ifP => // unitS [<-] /=.
  exact: corrected_form_le.
by split=> // i; rewrite -!(form_delta _ i).
Qed.

(** ** The motion model *)

Lemma model_F_mul dt (p v : 'cV[real]_2) :
  model_F dt *m col_mx p v = col_mx (p + dt *: v) v.
Proof.
rewrite /model_F -[col_mx (row_mx _ _) _]/(block_mx _ _ _ _) mul_block_col.
by rewrite /eye2 /zeros2 !mul1mx -scalemxAl mul1mx mul0mx add0r.
Qed.

Lemma model_H_mul (p v : 'cV[real]_2) : model_H *m col_mx p v = p.
Proof. by rewrite /model_H mul_row_col /eye2 /zeros2 mul1mx mul0mx addr0. Qed.

Lemma model_H_form (P : 'M[real]_(2 + 2)) :
  model_H *m P *m model_H^T = ulsubmx P.
Proof.
rewrite /model_H /eye2 /zeros2 -{1}[P]submxK mul_row_block.
rewrite !mul1mx !mul0mx !addr0 tr_row_mx trmx1 trmx0 mul_row_col.
by rewrite mulmx1 mulmx0 addr0.
Qed.

Lemma model_Q_blocks dt a_sigma :
  let c := 2%:R^-1 * (dt * dt) in
  model_Q dt a_sigma
  = block_mx ((a_sigma * a_sigma * (c * c)) *: eye2)
             ((a_sigma * a_sigma * (c * dt)) *: eye2)
             ((a_sigma * a_sigma * (dt * c)) *: eye2)
             ((a_sigma * a_sigma * (dt * dt)) *: eye2).
Proof.
move=> c; rewrite /model_Q /model_G !scalerA tr_col_mx mul_col_row.
rewrite !linearZ /= /eye2 trmx1 scale_block_mx.
rewrite -!scalemxAl !mulmx1 !scalerA /c.
by congr block_mx; congr (_ *: _); ring.
Qed.

(** X6.  The matrices the constructor builds are the constant-velocity
    model: [F] moves the position by [dt] times the velocity and keeps the
    velocity, [H] reads the position, so [H P H^T] is the position block
    of [P]; [Q] is [a_sigma^2] times the blocks [dt^4/4], [dt^3/2],
    [dt^2] of the identity, and [R] is [pos_sigma^2] times the
    identity. *)
Theorem constant_velocity_model dd init flt :
  KalmanFilterBasic_init dd init = Ok flt ->
  exists dt pos_sigma a_sigma,
    [/\ dict_get "dt"%string (parameters flt) = Some dt,
        dict_get "pos_sigma"%string (parameters flt) = Some pos_sigma,
        dict_get "a_sigma"%string (parameters flt) = Some a_sigma,
        [/\ forall p v : 'cV[real]_2,
              F flt *m col_mx p v = col_mx (p + dt *: v) v,
            forall p v : 'cV[real]_2, H flt *m col_mx p v = p
          & forall P, H flt *m P *m (H flt)^T = ulsubmx P]
      & [/\ Q flt
            = block_mx
                ((a_sigma * a_sigma * (2%:R^-1 * (dt * dt) * (2%:R^-1 * (dt * dt))))
                   *: eye2)
                ((a_sigma * a_sigma * (2%:R^-1 * (dt * dt) * dt)) *: eye2)
                ((a_sigma * a_sigma * (dt * (2%:R^-1 * (dt * dt)))) *: eye2)
                ((a_sigma * a_sigma * (dt * dt)) *: eye2)
          & R flt = (pos_sigma * pos_sigma) *: eye2]].
Proof.
rewrite /KalmanFilterBasic_init /Predictor_init.
case: (parameter_file dd) => //= params; rewrite /dict_getitem.
case Edt: (dict_get "dt"%string params) => [dt|] //=.
case Eps: (dict_get "pos_sigma"%string params) => [ps|] //=.
case Ea: (dict_get "a_sigma"%string params) => [a|] //= [<-] /=.
exists dt, ps, a; split=> //; split.
- exact: model_F_mul.
- exact: model_H_mul.
- exact: model_H_form.
- exact: model_Q_blocks.
- by [].
Qed.

(** ** The initializer in general *)

(** X7.  [SimpleRandomInitializer] returns exactly when the parameters hold
    [pos_sigma], [a_sigma], [v_mean] and [dt]; otherwise it raises
    [KeyError], whatever the position. *)
Theorem initializer_needs_four_keys params pos :
  is_ok (SimpleRandomInitializer params pos)
  = [&& dict_mem "pos_sigma"%string params, dict_mem "a_sigma"%string params,
        dict_mem "v_mean"%string params & dict_mem "dt"%string params]
  /\ forall e, SimpleRandomInitializer params pos = Err e -> e = KeyError.
Proof.
rewrite !dict_get_mem /SimpleRandomInitializer /dict_getitem.
case: (dict_get "pos_sigma"%string params) => [ps|]; rewrite /bind;
  last by split=> // e [].
case: (dict_get "a_sigma"%string params) => [a|]; last by split=> // e [].
case: (dict_get "v_mean"%string params) => [v|]; last by split=> // e [].
by case: (dict_get "dt"%string params) => [dt|]; split=> // e [].
Qed.

(** X8.  What [SimpleRandomInitializer] returns, for any parameters and
    position: the observation and the position half of the estimate are
    the given position, the velocity half is [v_mean] along one axis, in
    one of the four directions, the prediction equals the estimate, the
    covariance is block-diagonal with [pos_sigma^2] and [a_sigma^2], the
    object is marked done and has no true state yet. *)
Theorem initializer_output params pos s :
  SimpleRandomInitializer params pos = Ok s ->
  exists ps a v,
    [/\ dict_get "pos_sigma"%string params = Some ps,
        dict_get "a_sigma"%string params = Some a,
        dict_get "v_mean"%string params = Some v,
        [/\ x_obs s = pos, usubmx (x_est s) = pos,
            dsubmx (x_est s)
              \in [:: vec2 v 0; vec2 0 v; vec2 (- v) 0; vec2 0 (- v)]
          & x_pred s = x_est s]
      & [/\ x_cov s = block_mx ((ps * ps) *: eye2) 0 0 ((a * a) *: eye2),
            done s = true, x_true s = None & v_true s = None]].
Proof.
move=> /SimpleRandomInitializer_shape [ps [a [v [vel [e1 e2 e3 Hv ->]]]]].
exists ps, a, v; split=> //=.
by rewrite col_mxKu col_mxKd.
Qed.

(** ** The error of one frame *)

Lemma add_error_loop (st : tracked_t) acc acc' :
  foldM add_error acc (dict_items st) = Ok acc' ->
  acc' = (acc.1 + \sum_(kv <- st) pos_err_of kv.2,
          acc.2 + \sum_(kv <- st) vel_err_of kv.2).
Proof.
rewrite /dict_items; elim: st acc => [|kv st IH] acc /=.
  by case=> <-; rewrite !big_nil !addr0; case: acc.
rewrite !big_cons /add_error /GetTrueState /pos_err_of /vel_err_of.
case: (x_true kv.2) => [xt|] //; case: (v_true kv.2) => [vt|] //=.
by move=> /IH -> /=; rewrite !addrA.
Qed.

Lemma add_error_total (st : tracked_t) acc :
  all (fun kv => has_truth kv.2) st ->
  is_ok (foldM add_error acc (dict_items st)).
Proof.
rewrite /dict_items; elim: st acc => [|kv st IH] acc //= /andP [Ht Hall].
move: Ht; rewrite /add_error /GetTrueState /has_truth.
case: (x_true kv.2) => [xt|] //; case: (v_true kv.2) => [vt|] //= _.
exact: IH.
Qed.

Lemma ComputeError_appends flt flt' :
  ComputeError flt = Ok flt' ->
  dict_len (state flt) != 0%N /\
  flt' = append_errors
           ((\sum_(kv <- state flt) pos_err_of kv.2) / (dict_len (state flt))%:R)
           ((\sum_(kv <- state flt) vel_err_of kv.2) / (dict_len (state flt))%:R)
           flt.
Proof.
rewrite /ComputeError.
case E: (foldM _ _ _) => [acc|] //=.
case: ifP => // /negbT ne [<-]; split=> //.
by rewrite (add_error_loop E) /= !add0r.
Qed.

(** X9.  When [ComputeError] returns, the tracked set is not empty, the
    value appended to each series is the arithmetic mean, over the
    tracked objects, of the distance between the estimated and the true
    position (respectively velocity), and nothing else of the filter
    changes. *)
Theorem ComputeError_mean flt flt' :
  ComputeError flt = Ok flt' ->
  let n := dict_len (state flt) in
  n != 0%N /\
  flt' = append_errors
           ((\sum_(kv <- state flt) pos_err_of kv.2) / n%:R)
           ((\sum_(kv <- state flt) vel_err_of kv.2) / n%:R) flt.
Proof.
exact: ComputeError_appends.
Qed.

(** ** The run *)

Lemma wf_allP (K : eqType) (V : Type) (p : pred V) (d : dict K V) :
  wf_dict d -> (forall k v, dict_get k d = Some v -> p v) ->
  all (fun kv => p kv.2) d.
Proof.
rewrite /wf_dict; elim: d => [|kv d IH] //= /andP [nin ud] HP.
rewrite (HP kv.1) ?eqxx //= IH // => k v Hk; apply: (HP k).
case: (eqVneq kv.1 k) => [e|//].
by move: nin; rewrite e -/(dict_mem k d) dict_get_mem Hk.
Qed.

Lemma Estimate_mem flt frame flt' input_data oid :
  wf_dict (state flt) ->
  state_file (data_dir flt) frame = Some input_data ->
  Estimate flt frame = Ok flt' ->
  dict_mem oid (state flt') = dict_mem oid input_data.
Proof.
move=> wf Hf; rewrite /Estimate.
case E: (UpdateTrackedObjects _ _ _) => [st2|] //=.
case E3: (correct_phase flt st2) => [st3|] //= [<-] /=.
rewrite /dict_mem (correct_phase_keys E3) -/(dict_mem oid st2).
exact: UpdateTrackedObjects_mem (predict_phase_wf flt wf) Hf E.
Qed.

Lemma Estimate_series flt frame flt' :
  Estimate flt frame = Ok flt' ->
  pos_error flt' = pos_error flt /\ vel_error flt' = vel_error flt.
Proof.
rewrite /Estimate; case: (UpdateTrackedObjects _ _ _) => //= st2.
by case: (correct_phase flt st2) => //= st3 [<-].
Qed.

(** X10.  A run that returns has appended one value per frame to each of
    the two error series, after the values they held, whatever the
    logging frequency. *)
Theorem Run_appends_one_per_frame flt log_freq f n flt' :
  run_frames flt log_freq f n = Ok flt' ->
  exists pe ve,
    [/\ pos_error flt' = pos_error flt ++ pe,
        vel_error flt' = vel_error flt ++ ve,
        size pe = n & size ve = n].
Proof.
elim: n flt f => [|n IH] flt f /=.
  by case=> <-; exists [::], [::]; rewrite !cats0.
case: ifP => // _.
case E1: (Estimate flt f) => [flt1|] //=.
case E2: (ComputeError flt1) => [flt2|] //=.
case: (if _ then _ else _) => [_|] //= /IH [pe [ve [-> -> sp sv]]].
have [_ ->] := ComputeError_appends E2.
have [e1 e2] := Estimate_series E1; rewrite /= e1 e2.
eexists (_ :: pe), (_ :: ve); rewrite !cat_rcons /= sp sv.
by split.
Qed.

(** X11.  A run over a dictionary of tracked objects returns only if the
    logging frequency is not zero (when there is a frame to process) and
    every frame it covers has a state file holding at least one record:
    a missing file ends it with [SystemExit], an empty frame with
    [ZeroDivisionError]. *)
Theorem Run_needs_every_frame flt log_freq f n flt' :
  wf_dict (state flt) ->
  run_frames flt log_freq f n = Ok flt' ->
  ((0 < n)%N -> log_freq != 0%N)
  /\ forall k, (k < n)%N ->
       exists2 input_data,
         state_file (data_dir flt) (f + k) = Some input_data
         & dict_len input_data != 0%N.
Proof.
elim: n flt f => [|n IH] flt f wf //=.
case: ifP => // /negbT lf0.
case E1: (Estimate flt f) => [flt1|] //=.
case E2: (ComputeError flt1) => [flt2|] //=.
case: (if _ then _ else _) => [_|] //= Hrun.
have [_ _ _ _ [_ _ ed1]] := Estimate_model E1.
have [_ _ _ _ [_ _ ed2 es2]] := ComputeError_model E2.
have wf2 : wf_dict (state flt2) by rewrite es2; apply: Estimate_wf E1.
have [_ Hk] := IH _ _ wf2 Hrun; split=> // -[|k] Hlt; last first.
  by rewrite addnS -addSn; have := Hk k Hlt; rewrite ed2 ed1.
rewrite addn0; move: (E1); rewrite /Estimate /UpdateTrackedObjects.
case Hf: (state_file (data_dir flt) f) => [input_data|] // _.
exists input_data => //.
have [ne _] := ComputeError_appends E2.
case Est: (state flt1) ne => [|kv st] // _.
have := Estimate_mem kv.1 wf Hf E1.
rewrite Est /dict_mem /= mem_head.
by case: input_data {Hf}.
Qed.

Lemma SimpleRandomInitializer_ok params pos pos' :
  is_ok (SimpleRandomInitializer params pos) ->
  is_ok (SimpleRandomInitializer params pos').
Proof.
rewrite /SimpleRandomInitializer /dict_getitem.
case: (dict_get "pos_sigma"%string params) => [ps|] //; rewrite /bind.
case: (dict_get "a_sigma"%string params) => [a|] //.
case: (dict_get "v_mean"%string params) => [v|] //.
by case: (dict_get "dt"%string params) => [dt|].
Qed.

Lemma refresh_cov_invariant flt frame st st2 :
  cov_ok (Q flt) ->
  (forall pos init,
     InitializeObject flt (parameters flt) pos = Ok init -> cov_ok (x_cov init)) ->
  cov_invariant st ->
  UpdateTrackedObjects flt frame (predict_phase flt st) = Ok st2 ->
  cov_invariant st2.
Proof.
move=> HQ Hinit Hst; rewrite /UpdateTrackedObjects.
case: (state_file _ _) => //= input_data.
case E1: (stop_tracking _ _) => [st1|] //= E2 oid o Ho.
apply: (observe_loop_inv (P := fun o => cov_ok (x_cov o)) _ _ _ _ E2 Ho) => //.
move=> oid1 o1 Ho1.
case: (stop_tracking_get oid1 E1); rewrite Ho1 //.
move=> /esym; rewrite /predict_phase dict_get_map.
case E0: (dict_get oid1 _) => [o0|] //= [<-].
exact/predict_cov_ok/(Hst _ _ E0).
Qed.

Lemma correct_phase_truth flt st st' :
  correct_phase flt st = Ok st' ->
  all (fun kv => has_truth kv.2) st -> all (fun kv => has_truth kv.2) st'.
Proof.
elim: st st' => [|kv st IH] st' /=; first by case=> <-.
case Eo: (correct_object flt kv.2) => [s'|] //=.
case E: (correct_phase flt st) => [rest|] //= [<-] /= /andP [Ht Hall].
have [_ e2 e3 _] := correct_object_keeps Eo.
by rewrite /has_truth e2 e3 -/(has_truth kv.2) Ht (IH _ E).
Qed.

Lemma Estimate_truth flt frame flt' :
  wf_dict (state flt) ->
  Estimate flt frame = Ok flt' ->
  all (fun kv => has_truth kv.2) (state flt').
Proof.
move=> wf; rewrite /Estimate.
case E: (UpdateTrackedObjects _ _ _) => [st2|] //=.
case E3: (correct_phase flt st2) => [st3|] //= [<-] /=.
apply: correct_phase_truth E3 _; move: E; rewrite /UpdateTrackedObjects.
case Hf: (state_file _ _) => [input_data|] //.
rewrite (stop_trackingE _ (predict_phase_wf flt wf)) /= => E2.
have wf2 : wf_dict st2.
  apply: observe_loop_wf E2 _.
  exact/(filter_wf (fun k => dict_mem k input_data))/predict_phase_wf.
apply: wf_allP => // k v Hk; apply: (observe_loop_truth E2 _ Hk).
have := observe_loop_mem k E2; rewrite dict_get_mem Hk /=.
rewrite /dict_mem (dict_keys_filter (fun k => dict_mem k input_data)).
by rewrite mem_filter /dict_mem; case: (k \in dict_keys input_data).
Qed.

Lemma Estimate_returns dd params flt frame input_data :
  run_invariant dd params flt ->
  state_file dd frame = Some input_data ->
  exists flt1, Estimate flt frame = Ok flt1.
Proof.
move=> [ed ep ei [dt [a eQ]] [[ps eR ps0] Hok wf Hcov]] Hf.
have Hf' : state_file (data_dir flt) frame = Some input_data by rewrite ed.
have HQ : cov_ok (Q flt) by rewrite eQ; apply: model_Q_ok.
have Hinit pos : is_ok (InitializeObject flt (parameters flt) pos).
  by rewrite ei ep; apply: SimpleRandomInitializer_ok Hok.
have Hinit_cov pos init :
    InitializeObject flt (parameters flt) pos = Ok init -> cov_ok (x_cov init).
  by rewrite ei; apply: SimpleRandomInitializer_cov_ok.
rewrite /Estimate.
case E: (UpdateTrackedObjects _ _ _) => [st2|e] /=; last first.
  move: E; rewrite (UpdateTrackedObjectsE (predict_phase_wf flt wf) Hf').
  by have := observe_loop_total input_data
                [seq kv <- predict_phase flt (state flt)
                   | dict_mem kv.1 input_data] Hinit; case: (foldM _ _ _).
have Hcov2 := refresh_cov_invariant HQ Hinit_cov Hcov E.
have wf2 : wf_dict st2.
  move: E; rewrite (UpdateTrackedObjectsE (predict_phase_wf flt wf) Hf').
  move=> E2; apply: observe_loop_wf E2 _.
  exact/(filter_wf (fun k => dict_mem k input_data))/predict_phase_wf.
have : is_ok (correct_phase flt st2).
  rewrite correct_phase_ok.
  have := @wf_allP _ _ (fun o => is_ok (correct_object flt o)) _ wf2.
  move=> /(_ (fun k v Hk => correct_object_total eR ps0 (Hcov2 _ _ Hk).2)).
  apply: sub_all => kv; rewrite correct_objectE.
  by case: (done kv.2) => //=; case: ifP.
by case: (correct_phase flt st2) => //= st3 _; eexists.
Qed.

Lemma Estimate_invariant dd params flt frame flt1 :
  run_invariant dd params flt -> Estimate flt frame = Ok flt1 ->
  run_invariant dd params flt1.
Proof.
move=> [ed ep ei [dt [a eQ]] [[ps eR ps0] Hok wf Hcov]] E.
have [_ _ eQ1 eR1 [ei1 ep1 ed1]] := Estimate_model E.
split; rewrite ?ed1 ?ep1 ?ei1 ?eQ1 //; first by exists dt, a.
split=> //; first by exists ps; rewrite ?eR1.
  exact: Estimate_wf E.
apply: Estimate_cov_invariant E => //.
- by rewrite eQ; apply: model_Q_ok.
- by rewrite eR; apply: model_R_ok.
- by move=> pos init; rewrite ei; apply: SimpleRandomInitializer_cov_ok.
Qed.

Lemma ComputeError_invariant dd params flt flt2 :
  run_invariant dd params flt -> ComputeError flt = Ok flt2 ->
  run_invariant dd params flt2.
Proof.
move=> [ed ep ei [dt [a eQ]] [[ps eR ps0] Hok wf Hcov]] E.
have [_ _ eQ1 eR1 [ei1 ep1 ed1 es1]] := ComputeError_model E.
split; rewrite ?ed1 ?ep1 ?ei1 ?eQ1 //; first by exists dt, a.
by split; rewrite ?es1 //; exists ps; rewrite ?eR1.
Qed.

Lemma run_frames_returns dd params flt log_freq f n :
  (forall f st, save_estimate output_dir f st = Ok tt) ->
  run_invariant dd params flt -> log_freq != 0%N ->
  (forall k, (k < n)%N ->
     exists2 input_data,
       state_file dd (f + k) = Some input_data & dict_len input_data != 0%N) ->
  exists flt', run_frames flt log_freq f n = Ok flt'.
Proof.
move=> Hsave + lf0; elim: n flt f => [|n IH] flt f Hinv Hframes /=.
  by exists flt.
rewrite (negbTE lf0).
have [input_data Hf ne] := Hframes 0%N (ltn0Sn n).
rewrite addn0 in Hf.
have [flt1 E1] := Estimate_returns Hinv Hf; rewrite E1 /=.
have Hinv1 := Estimate_invariant Hinv E1.
have [ed _ _ _ [_ _ wf _]] := Hinv.
have Hf' : state_file (data_dir flt) f = Some input_data by rewrite ed.
have ne1 : dict_len (state flt1) != 0%N.
  case: input_data Hf' ne {Hf} => [|item items] // Hf' _.
  have := Estimate_mem item.1 wf Hf' E1.
  by rewrite [RHS]/dict_mem /= mem_head; case: (state flt1).
have : is_ok (ComputeError flt1).
  rewrite /ComputeError.
  have := add_error_total (0, 0) (Estimate_truth wf E1).
  by case: (foldM _ _ _) => //= acc _; rewrite (negbTE ne1).
case E2: (ComputeError flt1) => [flt2|] //= _.
rewrite Hsave if_same /=.
apply: IH (ComputeError_invariant Hinv1 E2) _ => k Hk.
by have := Hframes k.+1 Hk; rewrite addnS -addSn.
Qed.

(** X12.  A run started from the constructor with
    [SimpleRandomInitializer] returns whenever the parameters also hold
    [v_mean], [pos_sigma] is not zero, the logging frequency is not zero,
    every frame it covers has a state file with at least one record, and
    the output directory does its part: every call of
    [SaveEstimateAsImage] and both pickle dumps return.  Under these
    conditions no key is missing, no innovation covariance is singular
    and no true state is unset. *)
Theorem Run_returns dd flt0 frames log_freq :
  KalmanFilterBasic_init dd SimpleRandomInitializer = Ok flt0 ->
  dict_mem "v_mean"%string (parameters flt0) ->
  dict_get "pos_sigma"%string (parameters flt0) != Some 0 ->
  log_freq != 0%N ->
  (forall k, (k < frames)%N ->
     exists2 input_data,
       state_file dd k = Some input_data & dict_len input_data != 0%N) ->
  (forall f st, save_estimate output_dir f st = Ok tt) ->
  (forall name s, dump_series output_dir name s = Ok tt) ->
  exists flt', Run flt0 frames log_freq = Ok flt'.
Proof.
move=> Hc Hv Hps lf0 Hframes Hsave Hdump.
have [|flt' E] :=
  @run_frames_returns dd (parameters flt0) flt0 log_freq 0 frames
                      Hsave _ lf0 Hframes.
  move: Hc Hv Hps; rewrite /KalmanFilterBasic_init /Predictor_init.
  case: (parameter_file dd) => //= params; rewrite /dict_getitem.
  case Edt: (dict_get "dt"%string params) => [dt|] //=.
  case Eps: (dict_get "pos_sigma"%string params) => [ps|] //=.
  case Ea: (dict_get "a_sigma"%string params) => [a|] //= [<-] /=.
  rewrite Eps dict_get_mem => Hv Hps; split=> //; first by exists dt, a.
  split=> //; first by exists ps => //; apply: contraNneq Hps => ->.
  rewrite /SimpleRandomInitializer /dict_getitem Eps Ea /= Edt.
  by case: (dict_get "v_mean"%string params) Hv.
by exists flt'; rewrite /Run E /= !Hdump.
Qed.

(** ** How a run ends *)

Lemma init_run_invariant dd flt0 :
  KalmanFilterBasic_init dd SimpleRandomInitializer = Ok flt0 ->
  dict_mem "v_mean"%string (parameters flt0) ->
  dict_get "pos_sigma"%string (parameters flt0) != Some 0 ->
  run_invariant dd (parameters flt0) flt0.
Proof.
rewrite /KalmanFilterBasic_init /Predictor_init.
case: (parameter_file dd) => //= params; rewrite /dict_getitem.
case Edt: (dict_get "dt"%string params) => [dt|] //=.
case Eps: (dict_get "pos_sigma"%string params) => [ps|] //=.
case Ea: (dict_get "a_sigma"%string params) => [a|] //= [<-] /=.
rewrite Eps dict_get_mem => Hv Hps; split=> //; first by exists dt, a.
split=> //; first by exists ps => //; apply: contraNneq Hps => ->.
rewrite /SimpleRandomInitializer /dict_getitem Eps Ea /= Edt.
by case: (dict_get "v_mean"%string params) Hv.
Qed.

(** The first [k] frames of a run whose files exist and hold records. *)
Lemma run_frames_skip dd params flt log_freq f k :
  (forall f st, save_estimate output_dir f st = Ok tt) ->
  run_invariant dd params flt -> log_freq != 0%N ->
  (forall j, (j < k)%N ->
     exists2 input_data,
       state_file dd (f + j) = Some input_data & dict_len input_data != 0%N) ->
  exists2 fltk, run_invariant dd params fltk
    & forall m, run_frames flt log_freq f (k + m)
                = run_frames fltk log_freq (f + k) m.
Proof.
move=> Hsave + lf0; elim: k flt f => [|k IH] flt f Hinv Hframes.
  by exists flt => // m; rewrite addn0.
have [input_data Hf ne] := Hframes 0%N (ltn0Sn k).
rewrite addn0 in Hf.
have [flt1 E1] := Estimate_returns Hinv Hf.
have Hinv1 := Estimate_invariant Hinv E1.
have [ed _ _ _ [_ _ wf _]] := Hinv.
have Hf' : state_file (data_dir flt) f = Some input_data by rewrite ed.
have ne1 : dict_len (state flt1) != 0%N.
  case: input_data Hf' ne {Hf} => [|item items] // Hf' _.
  have := Estimate_mem item.1 wf Hf' E1.
  by rewrite [RHS]/dict_mem /= mem_head; case: (state flt1).
have : is_ok (ComputeError flt1).
  rewrite /ComputeError.
  have := add_error_total (0, 0) (Estimate_truth wf E1).
  by case: (foldM _ _ _) => //= acc _; rewrite (negbTE ne1).
case E2: (ComputeError flt1) => [flt2|] //= _.
have [|fltk Hk Hrun] := IH flt2 f.+1 (ComputeError_invariant Hinv1 E2).
  by move=> j Hj; have := Hframes j.+1 Hj; rewrite addnS -addSn.
exists fltk => // m.
by rewrite (negbTE lf0) E1 /= E2 /= Hsave if_same /= Hrun addnS -addSn.
Qed.

(** X13.  A run started from the constructor (with
    [SimpleRandomInitializer], [v_mean] present, [pos_sigma] and the
    logging frequency not zero) ends with [SystemExit 1] when, after
    frames that all have a state file with records and were all rendered
    without an exception, it reaches a frame whose state file is
    missing. *)
Theorem Run_exits_on_missing_frame dd flt0 frames log_freq k :
  KalmanFilterBasic_init dd SimpleRandomInitializer = Ok flt0 ->
  dict_mem "v_mean"%string (parameters flt0) ->
  dict_get "pos_sigma"%string (parameters flt0) != Some 0 ->
  log_freq != 0%N -> (k < frames)%N ->
  (forall j, (j < k)%N ->
     exists2 input_data,
       state_file dd j = Some input_data & dict_len input_data != 0%N) ->
  (forall f st, save_estimate output_dir f st = Ok tt) ->
  state_file dd k = None ->
  Run flt0 frames log_freq = Err (SystemExit 1).
Proof.
move=> Hc Hv Hps lf0 Hk Hframes Hsave Hnone.
have Hinv := init_run_invariant Hc Hv Hps.
have [fltk [ed _ _ _ _] Hrun] :=
  run_frames_skip (f := 0) Hsave Hinv lf0 Hframes.
rewrite /Run -(subnKC (ltnW Hk)) -(subnSK Hk) Hrun /= (negbTE lf0).
by rewrite /Estimate /UpdateTrackedObjects ed add0n Hnone.
Qed.

(** X14.  Under the same conditions the run ends with
    [ZeroDivisionError] when it reaches a frame whose state file holds no
    record: [Estimate] empties the tracked set and [ComputeError] divides
    by its length. *)
Theorem Run_fails_on_empty_frame dd flt0 frames log_freq k :
  KalmanFilterBasic_init dd SimpleRandomInitializer = Ok flt0 ->
  dict_mem "v_mean"%string (parameters flt0) ->
  dict_get "pos_sigma"%string (parameters flt0) != Some 0 ->
  log_freq != 0%N -> (k < frames)%N ->
  (forall j, (j < k)%N ->
     exists2 input_data,
       state_file dd j = Some input_data & dict_len input_data != 0%N) ->
  (forall f st, save_estimate output_dir f st = Ok tt) ->
  state_file dd k = Some [::] ->
  Run flt0 frames log_freq = Err ZeroDivisionError.
Proof.
move=> Hc Hv Hps lf0 Hk Hframes Hsave Hempty.
have Hinv := init_run_invariant Hc Hv Hps.
have [fltk Hinvk Hrun] := run_frames_skip (f := 0) Hsave Hinv lf0 Hframes.
rewrite /Run -(subnKC (ltnW Hk)) -(subnSK Hk) Hrun /= (negbTE lf0) add0n.
have [flt1 E1] := Estimate_returns Hinvk Hempty; rewrite E1 /=.
have [ed _ _ _ [_ _ wf _]] := Hinvk.
have Hf' : state_file (data_dir fltk) k = Some [::] by rewrite ed.
have -> : ComputeError flt1 = Err ZeroDivisionError; last by [].
rewrite /ComputeError; case Est: (state flt1) => [|kv st] //.
have := Estimate_mem kv.1 wf Hf' E1.
by rewrite Est /dict_mem /= mem_head.
Qed.

(** ** Numeric faults *)

(** X15.  The correction loop can only raise [LinAlgError], and it raises
    exactly when some unresolved object has a singular innovation
    covariance; with [R = pos_sigma^2 I], [pos_sigma] not zero, this does
    not happen for any object whose covariance is positive
    semi-definite. *)
Theorem correction_numeric_fault flt st :
  [/\ is_ok (correct_phase flt st)
      = all (fun kv => done kv.2
                       || (H flt *m x_cov kv.2 *m (H flt)^T + R flt \in unitmx))
            st,
      forall e, correct_phase flt st = Err e -> e = LinAlgError
    & forall pos_sigma o,
        R flt = (pos_sigma * pos_sigma) *: eye2 -> pos_sigma != 0 ->
        psd (x_cov o) ->
        H flt *m x_cov o *m (H flt)^T + R flt \in unitmx].
Proof.
split; first exact: correct_phase_ok.
- elim: st => [|kv st IH] e //=; rewrite correct_objectE.
  case: (done kv.2) => /=.
    by case: (correct_phase flt st) IH => //= e' IH [<-]; apply: IH.
  case: ifP => _ /=; last by case.
  by case: (correct_phase flt st) IH => //= e' IH [<-]; apply: IH.
- by move=> ps o ER ps0 pP; apply: (innovation_cov_unit _ pP ER ps0).
Qed.

(** ** The scenario, continued *)

Lemma ex_compute1 : ComputeError ex_filter1 = Ok ex_filter2.
Proof. by []. Qed.

Lemma ex_run1 :
  save_estimate output_dir 0 (state ex_filter2) = Ok tt ->
  run_frames ex_filter0 1 0 1 = Ok ex_filter2.
Proof.
move=> Hsave.
have -> : run_frames ex_filter0 1 0 1
          = (flt1 <- Estimate ex_filter0 0 ;;
             flt2 <- ComputeError flt1 ;;
             _ <- save_estimate output_dir 0 (state flt2) ;; Ok flt2) by [].
by rewrite ex_estimate0 /= Hsave.
Qed.

Lemma ex_unresolved_cov_ok : cov_ok (x_cov ex_unresolved).
Proof.
exact: (predict_cov_ok (flt := ex_filter1) (model_Q_ok 1 10%:R^-1)
          ex_object_cov_ok).
Qed.

Lemma ex_correct_object :
  correct_object ex_filter1 ex_unresolved
  = Ok (corrected ex_filter1 ex_unresolved).
Proof.
by rewrite correct_objectE /= /innovation_cov ex_unresolved_unit.
Qed.

Lemma ex_tracking_invariant :
  run_invariant (data_dir ex_tracking) fixture_params ex_tracking.
Proof.
split=> //; first by exists 1, 10%:R^-1.
split=> //; first by exists 1 => //; apply: oner_neq0.
move=> oid o /=; case: ifP => // _ [<-].
exact: ex_object_cov_ok.
Qed.

Lemma ex_frames_present (k : nat) :
  (k < 1)%N ->
  exists2 input_data,
    state_file ex_dir k = Some input_data & dict_len input_data != 0%N.
Proof. by case: k => // _; exists [:: (7%N, ex_record)]. Qed.

End Tracker.

(** * The scenario over the rationals *)

Lemma predict_phase_spec_witness :
  dict_get 7%N (predict_phase (ex_filter1 rat) (state (ex_filter1 rat)))
  = Some (ex_unresolved rat).
Proof.
by have [_ -> _ _] := predict_phase_spec (ex_filter1 rat) (state (ex_filter1 rat)).
Defined.

Lemma correct_phase_spec_witness :
  let flt := ex_filter1 rat in
  let o := ex_unresolved rat in
  correct_phase flt [:: (7%N, o)]
  = Ok [:: (7%N,
            mkState (x_obs o)
                    (x_pred o + gain flt o *m innovation flt o)
                    (x_pred o)
                    ((1%:M - gain flt o *m H flt) *m x_cov o)
                    true (x_true o) (v_true o))].
Proof.
move=> flt o.
have [-> _] := correct_phase_spec flt [:: (7%N, o)].
by rewrite /= (ex_unresolved_unit (o := o)).
Defined.

Lemma zero_innovation_witness :
  exists2 o', correct_object (ex_filter1 rat) (ex_aligned rat) = Ok o'
            & x_est o' = x_pred (ex_aligned rat).
Proof.
apply: zero_innovation => //.
exact: ex_unresolved_unit.
Defined.

Lemma initialization_fixture_witness :
  argmin [seq `|m| | m <- [:: -1; -1; 0; 0 : rat]] = 2%N.
Proof.
have [_ Em Ea _ _] := initialization_fixture rat.
by rewrite -Em.
Defined.

Lemma new_object_witness :
  exists2 o', dict_get 7%N (state (ex_filter1 rat)) = Some o'
            & x_est o' = x_est (ex_init rat) /\ done o' = true.
Proof.
have [init [st2 [o' [Hi Hu [H2 Hd] Ho' [e _ _]]]]] :=
  new_object_keeps_initial_estimate (ex_estimate0 rat)
    (erefl : state_file (data_dir (ex_filter0 rat)) 0
             = Some [:: (7%N, ex_record rat)])
    (erefl : ~~ dict_mem 7%N (state (ex_filter0 rat)))
    (erefl : dict_get 7%N [:: (7%N, ex_record rat)] = Some (ex_record rat)).
exists o' => //; split=> //; rewrite e.
by move: Hi; rewrite [InitializeObject _ _ _]fixture_init => -[<-].
Defined.

Lemma covariance_invariant_witness :
  cov_ok (x_cov (predict_object (ex_filter0 rat) (ex_object rat))).
Proof.
have [Hp _ _] :=
  covariance_invariant (fun x : rat => x) (ex_output rat) (ex_construct rat).
exact: Hp (ex_object_cov_ok rat).
Defined.

Lemma configuration_errors_witness :
  is_ok (KalmanFilterBasic_init (cx_dir rat) (@SimpleRandomInitializer rat))
  /\ Estimate (cx_filter rat) 0 = Err KeyError.
Proof.
have [Hc _ _ He] :=
  configuration_errors (@SimpleRandomInitializer rat)
    (erefl : parameter_file (cx_dir rat) = Some (cx_params rat)).
split; first by rewrite Hc.
exact: (He isT (cx_filter rat) 0%N [:: (7%N, ex_record rat)] 7%N).
Defined.

(** C7, as the specification has it, fails: with every key but [v_mean]
    the constructor returns a filter, so nothing is raised before frame 0
    is processed; the [KeyError] comes from [Estimate] on frame 0, when
    identity 7 is initialized. *)
Lemma missing_v_mean_not_caught :
  [/\ dict_mem "v_mean"%string (cx_params rat) = false,
      KalmanFilterBasic_init (cx_dir rat) (@SimpleRandomInitializer rat)
      = Ok (cx_filter rat)
    & Estimate (cx_filter rat) 0 = Err KeyError].
Proof. by []. Qed.

Lemma ComputeError_empty_witness :
  ComputeError (fun x : rat => x) (ex_filter0 rat) = Err ZeroDivisionError.
Proof. exact: ComputeError_empty. Defined.

Lemma dropped_identity_witness :
  dict_mem 7%N (state (ex_filter1 rat))
  /\ Estimate (set_state (dict_remove 7%N (state (ex_filter1 rat)))
                         (ex_filter1 rat)) 1
     = Estimate (ex_filter1 rat) 1.
Proof.
have [_ _ He _] :=
  dropped_identity (fun x : rat => x) (ex_output rat) (oid := 7%N)
    (erefl : wf_dict (state (ex_filter1 rat)))
    (erefl : state_file (data_dir (ex_filter1 rat)) 1 = Some [::])
    isT.
by split.
Defined.

Lemma removal_is_two_phase_witness :
  stop_tracking [::] [:: (7%N, ex_object rat); (8%N, ex_object rat)]
  = Ok [::].
Proof.
have [-> _ _] :=
  removal_is_two_phase [::]
    (erefl : wf_dict [:: (7%N, ex_object rat); (8%N, ex_object rat)]).
by [].
Defined.

(** ** Further instances over the rationals *)

Lemma Estimate_tracks_records_witness :
  dict_mem 7%N (state (ex_filter1 rat)) /\ ~~ dict_mem 8%N (state (ex_filter1 rat)).
Proof.
have H := Estimate_tracks_records
            (erefl : wf_dict (state (ex_filter0 rat)))
            (erefl : state_file (data_dir (ex_filter0 rat)) 0
                     = Some [:: (7%N, ex_record rat)])
            (ex_estimate0 rat).
by rewrite !H.
Defined.

Lemma Estimate_continues_witness :
  exists2 flt', Estimate (ex_tracking rat) 1 = Ok flt'
              & dict_get 7%N (state flt') = Some (ex_continued rat).
Proof.
have [flt' E] :=
  Estimate_returns (ex_tracking_invariant rat)
    (erefl : state_file (data_dir (ex_tracking rat)) 1
             = Some [:: (7%N, ex_record rat)]).
exists flt' => //.
by have [_ ->] :=
  Estimate_continues
    (erefl : wf_dict (state (ex_tracking rat)))
    (erefl : wf_dict [:: (7%N, ex_record rat)])
    (erefl : state_file (data_dir (ex_tracking rat)) 1 = Some _)
    (erefl : dict_get 7%N (state (ex_tracking rat)) = Some (ex_object rat))
    (erefl : dict_get 7%N [:: (7%N, ex_record rat)] = Some (ex_record rat))
    E.
Defined.

Lemma Estimate_resolves_all_witness :
  correct_phase (ex_filter1 rat) (state (ex_filter1 rat))
  = Ok (state (ex_filter1 rat)).
Proof. by have [_ ->] := Estimate_resolves_all (ex_estimate0 rat). Defined.

Lemma Estimate_sets_truth_witness :
  exists2 o', dict_get 7%N (state (ex_filter1 rat)) = Some o'
            & x_true o' = Some (vec2 0 0) /\ v_true o' = Some (vec2 (-1) 0).
Proof.
have [o' Ho' [e1 e2 _ _]] :=
  Estimate_sets_truth
    (erefl : wf_dict (state (ex_filter0 rat)))
    (erefl : wf_dict [:: (7%N, ex_record rat)])
    (erefl : state_file (data_dir (ex_filter0 rat)) 0 = Some _)
    (erefl : dict_get 7%N [:: (7%N, ex_record rat)] = Some (ex_record rat))
    (ex_estimate0 rat).
by exists o'.
Defined.

Lemma correction_shrinks_covariance_witness :
  x_cov (corrected (ex_filter1 rat) (ex_unresolved rat)) 0 0
  <= x_cov (ex_unresolved rat) 0 0.
Proof.
have [_ Hd] :=
  correction_shrinks_covariance (flt := ex_filter1 rat)
    (model_R_ok (1 : rat)).2
    (ex_unresolved_cov_ok rat) (ex_correct_object rat).
exact: Hd.
Defined.

Lemma constant_velocity_model_witness :
  H (ex_filter0 rat) *m col_mx (vec2 3 4) (vec2 1 2) = vec2 3 4.
Proof.
have [dt [ps [a [_ _ _ [_ Hh _] _]]]] :=
  constant_velocity_model (ex_construct rat).
exact: Hh.
Defined.

Lemma initializer_needs_four_keys_witness :
  is_ok (SimpleRandomInitializer (cx_params rat) (vec2 0 0)) = false.
Proof.
by have [-> _] := initializer_needs_four_keys (cx_params rat) (vec2 0 0).
Defined.

Lemma initializer_output_witness :
  x_obs (ex_init rat) = vec2 0 0 /\ x_pred (ex_init rat) = x_est (ex_init rat).
Proof.
have [ps [a [v [_ _ _ [e1 _ _ e2] _]]]] :=
  initializer_output (fixture_init rat).
by split.
Defined.

Lemma ComputeError_mean_witness :
  size (pos_error (ex_filter2 (fun x : rat => x))) = 1%N.
Proof.
by have [_ ->] := ComputeError_mean (ex_compute1 (fun x : rat => x)).
Defined.

Lemma Run_appends_one_per_frame_witness :
  size (pos_error (ex_filter2 (fun x : rat => x))) = 1%N
  /\ size (vel_error (ex_filter2 (fun x : rat => x))) = 1%N.
Proof.
have [pe [ve [e1 e2 s1 s2]]] :=
  Run_appends_one_per_frame
    (@ex_run1 rat (fun x => x) (ex_output rat) erefl).
by rewrite e1 e2 /= s1 s2.
Defined.

Lemma Run_needs_every_frame_witness :
  exists2 input_data,
    state_file (ex_dir rat) 0 = Some input_data & dict_len input_data != 0%N.
Proof.
have [_ Hk] :=
  Run_needs_every_frame
    (erefl : wf_dict (state (ex_filter0 rat)))
    (@ex_run1 rat (fun x => x) (ex_output rat) erefl).
exact: (Hk 0%N isT).
Defined.

Lemma Run_returns_witness :
  exists flt',
    Run (fun x : rat => x) (ex_output rat) (ex_filter0 rat) 1 1 = Ok flt'.
Proof.
apply: (Run_returns (fun x : rat => x) (ex_construct rat)) => //.
exact: ex_frames_present.
Defined.

Lemma Run_exits_on_missing_frame_witness :
  Run (fun x : rat => x) (ex_output rat) (ex_filter_short rat) 2 1
  = Err (SystemExit 1).
Proof.
apply: (@Run_exits_on_missing_frame rat _ _ (ex_dir_short rat) _ _ _ 1) => //.
by case=> // _; exists [:: (7%N, ex_record rat)].
Defined.

Lemma Run_fails_on_empty_frame_witness :
  Run (fun x : rat => x) (ex_output rat) (ex_filter0 rat) 2 1
  = Err ZeroDivisionError.
Proof.
apply: (@Run_fails_on_empty_frame rat _ _ (ex_dir rat) _ _ _ 1) => //.
by case=> // _; exists [:: (7%N, ex_record rat)].
Defined.

Lemma correction_numeric_fault_witness :
  is_ok (correct_phase (ex_filter1 rat) [:: (7%N, ex_unresolved rat)]).
Proof.
have [-> _ Hunit] :=
  correction_numeric_fault (ex_filter1 rat) [:: (7%N, ex_unresolved rat)].
rewrite /= andbT.
exact: (Hunit 1 _ erefl (oner_neq0 _) (ex_unresolved_cov_ok rat).2).
Defined.

(** * The covariance in float64 *)

(** C6, as the specification has it, fails on the numbers the program
    computes with.  Take [dt = 1], [pos_sigma = 1], [a_sigma = 0.1] and an
    object made by the initializer, then tracked for two more frames:
    predict, correct, predict, correct.  The covariance is symmetric at
    the start and after the first three updates (before the second
    correction it has the blocks [a I], [b I], [b I], [d I] with
    [a d > b^2], so it is positive semi-definite); the second correction
    returns a covariance whose entries (0, 2) and (2, 0) differ,
    [0.0209955867736271] against [0.020995586773627097].  Hence no
    property of covariances that holds of the initializer's covariance and
    is kept by the predict update and by every correction update that
    returns can imply symmetry. *)
Lemma float64_correction_loses_symmetry :
  let P0 := Float64.initial_cov 1 0.1 in
  let P1 := Float64.predict_cov 1 0.1 P0 in
  exists P2 P3 P4,
    [/\ Float64.correct_cov 1 P1 = Some P2,
        [/\ P3 = Float64.predict_cov 1 0.1 P2,
            P3 = [:: [:: 0.54040062111801246; 0; 0.032341614906832308; 0];
                     [:: 0; 0.54040062111801246; 0; 0.032341614906832308];
                     [:: 0.032341614906832308; 0; 0.029888198757763981; 0];
                     [:: 0; 0.032341614906832308; 0; 0.029888198757763981]]%float
          & Float64.correct_cov 1 P3 = Some P4],
        [&& Float64.symmetric P0, Float64.symmetric P1, Float64.symmetric P2
          & Float64.symmetric P3],
        Float64.symmetric P4 = false
        /\ (nth 0%float (nth [::] P4 0%N) 2%N,
            nth 0%float (nth [::] P4 2%N) 0%N)
           = (0.0209955867736271%float, 0.020995586773627097%float)
      & forall good : Float64.fmat -> Prop,
          good P0 ->
          (forall P, good P -> good (Float64.predict_cov 1 0.1 P)) ->
          (forall P P', good P -> Float64.correct_cov 1 P = Some P' -> good P') ->
          ~ (forall P, good P -> Float64.symmetric P)].
Proof.
move=> P0 P1.
have [P2 E2] : exists P2, Float64.correct_cov 1 P1 = Some P2.
  by eexists; vm_compute; reflexivity.
have [P4 E4] :
    exists P4, Float64.correct_cov 1 (Float64.predict_cov 1 0.1 P2) = Some P4.
  by move: E2; vm_compute => -[<-]; eexists; reflexivity.
exists P2, (Float64.predict_cov 1 0.1 P2), P4.
have Hs4 : Float64.symmetric P4 = false.
  by move: E2 E4; vm_compute => -[<-]; vm_compute => -[<-].
split=> //.
- by split=> //; move: E2; vm_compute => -[<-].
- by move: E2; vm_compute => -[<-].
- split=> //; by move: E2 E4; vm_compute => -[<-]; vm_compute => -[<-].
- move=> good H0 Hp Hc Hsym.
  have := Hsym P4 (Hc _ _ (Hp _ (Hc _ _ (Hp _ H0) E2)) E4).
  by rewrite Hs4.
Qed.
